(** * Genie inference server: session, step and client handler

    A shallow embedding of [genie-worldmodel/scripts/inference_server.py]:
    the class [GenieInferenceSession] (its constructor, [set_initial_context]
    and [step]), the coroutine [handle_client] and the part of [main] that
    creates the session and hands it to the connection handlers.

    Modelling conventions.
    - Python [int] is [Z]; [%] is floored modulo, which is [Z.modulo], and
      raises [ZeroDivisionError] on a zero divisor.
    - The value of a tensor element is a rational [Q], as every finite
      float is.  The arithmetic of lines 99-100 is float32 arithmetic: the
      result of [.float()], of the addition and of the multiplication is
      rounded to the nearest float32, ties to even ([f32]).  NaN and the
      infinities are not represented.
    - [generated_frames] has shape [1, T, C, H, W]; the batch dimension is
      always 1, so the history is the list of its T frames and a frame is a
      [C x H x W] nested list.
    - The tokenizer, the latent action model and the dynamics model are
      external objects: records of functions of their arguments, which may
      raise.  Every call the session makes to them is recorded in a call log.
      [torch.amp.autocast] changes the precision of their arithmetic only and
      is not represented.
    - Python exceptions: a computation returns [Ok v] or [Raise e] together
      with the state reached, so that mutations made before a raise stay. *)

From Stdlib Require Import String ZArith QArith Qround Qminmax Bool Lia Lqa List.
Import ListNotations.
Open Scope Z_scope.
Set Warnings "-register-all".

(** ** Python values and exceptions *)

Inductive Exception : Type :=
| RuntimeError (msg : string)
| ZeroDivisionError
| IndexError
| AttributeError
| TypeError
| ValueError
| OverflowError
| JSONDecodeError
| GatewayFailure (msg : string).

Inductive result (A : Type) : Type :=
| Ok (a : A)
| Raise (e : Exception).
Arguments Ok {A} a.
Arguments Raise {A} e.

Definition is_ok {A} (r : result A) : bool :=
  match r with Ok _ => true | Raise _ => false end.

(** [xs[start:]] on a sequence: a negative start counts from the end, and
    the start is clipped to the sequence. *)
Definition slice_from {A} (start : Z) (xs : list A) : list A :=
  let n := Z.of_nat (length xs) in
  let s := if start <? 0 then Z.max 0 (start + n) else Z.min start n in
  skipn (Z.to_nat s) xs.

(** [xs[-1]]: the last element, [IndexError] on an empty sequence. *)
Definition index_last {A} (xs : list A) : result A :=
  match rev xs with
  | [] => Raise IndexError
  | x :: _ => Ok x
  end.

(** [a % n] *)
Definition py_mod (a n : Z) : result Z :=
  if n =? 0 then Raise ZeroDivisionError else Ok (a mod n).

(** ** Frames and the conversion to 8-bit pixels *)

(** A frame [C, H, W] in the signed range, and the image [H, W, C] of bytes
    that [step] returns. *)
Definition Frame : Type := list (list (list Q)).
Definition Image : Type := list (list (list Z)).

Definition map3 {A B} (f : A -> B) (t : list (list (list A))) : list (list (list B)) :=
  map (map (map f)) t.

(** [torch.clamp(v, lo, hi)] on one value: [min(max(v, lo), hi)]. *)
Definition clamp (lo hi v : Q) : Q := Qmin (Qmax v lo) hi.

(** Conversion of a float to an integer type drops the fraction. *)
Definition Qtrunc (q : Q) : Z :=
  if Qle_bool 0 q then Qfloor q else Qceiling q.

(** [.byte()]: truncation, then the low 8 bits (after the clamp the value is
    in [0, 255] and the low 8 bits are all of it). *)
Definition to_byte (q : Q) : Z := (Qtrunc q) mod 256.

(** [t.permute(1, 2, 0)] on a [C, H, W] tensor: the result, of shape
    [H, W, C], holds at [h][w][c] the value of [t] at [c][h][w].  The sizes
    H and W are read off the first channel (a tensor with no channel has
    no rows here). *)
Definition permute_1_2_0 {A} (d : A) (t : list (list (list A))) : list (list (list A)) :=
  let H := length (hd [] t) in
  let W := length (hd [] (hd [] t)) in
  map (fun h => map (fun w => map (fun ch => nth w (nth h ch []) d) t) (seq 0 W)) (seq 0 H).

(** Rounding to the nearest integer, ties to even. *)
Definition round_half_even (q : Q) : Z :=
  let f := Qfloor q in
  match ((q - inject_Z f) ?= (1 # 2))%Q with
  | Lt => f
  | Gt => f + 1
  | Eq => if Z.even f then f else f + 1
  end.

(** *** float32

    A finite float32 is a multiple [k * 2 ^ sh * 2 ^ -149] of the smallest
    positive float32, with [k < 2 ^ 24] and [sh >= 0].  Rounding a
    non-negative real [a] to float32: with [t = a * 2 ^ 149], the shift is 0
    below [2 ^ 24] (subnormals and the first binade) and otherwise the
    number of bits of [t] beyond 24; [t / 2 ^ sh] is rounded to the nearest
    integer, ties to even.  Overflow to infinity (from [2 ^ 128] on) is not
    represented; the values rounded here are at most 255 in magnitude. *)
Definition f32_shift (a : Q) : Z :=
  Z.max 0 (Z.log2 (Qfloor (a * inject_Z (2 ^ 149))) - 23).

Definition f32_grid (a : Q) : Z :=
  let sh := f32_shift a in
  round_half_even (a * inject_Z (2 ^ 149) / inject_Z (2 ^ sh)) * 2 ^ sh.

Definition f32_abs (a : Q) : Q := (inject_Z (f32_grid a) / inject_Z (2 ^ 149))%Q.

(** The float32 nearest to [x]. *)
Definition f32 (x : Q) : Q :=
  if Qle_bool 0 x then f32_abs x else (- f32_abs (- x))%Q.

(** Lines 99-100 of the source, on the frame [next_frames[0, -1]]:
    [frame = frame.clamp(-1, 1).cpu().float()] and then
    [((frame + 1) * 127.5).byte().permute(1, 2, 0).numpy()], the sum and
    the product being float32 operations. *)
Definition frame_to_uint8 (frame : Frame) : Image :=
  let frame := map3 (fun v => f32 (clamp (-1) 1 v)) frame in
  permute_1_2_0 0
    (map3 to_byte (map3 (fun v => f32 (f32 (v + 1) * (255 # 2))) frame)).

(** What those two lines do to one value: the float32 value that [.byte()]
    is applied to, and the byte. *)
Definition float_pixel (v : Q) : Q :=
  f32 (f32 (f32 (clamp (-1) 1 v) + 1) * (255 # 2)).

Definition display (v : Q) : Z := to_byte (float_pixel v).

(** The conversion as the specification words it:
    [clamp(round((v + 1) * 127.5), 0, 255)], in exact arithmetic, with
    rounding to the nearest integer, ties to even. *)
Definition display_spec (v : Q) : Z :=
  Z.min (Z.max (round_half_even ((v + 1) * (255 # 2))%Q) 0) 255.

(** ** The model objects *)

Section Session.

(** Tensors exchanged with the models: token indices of the video
    tokenizer, latents, and the latent of one action. *)
Context {VideoIndices Latents ActionLatent : Type}.

(** [self.vt]: [tokenize], [quantizer.get_latents_from_indices] (with its
    optional [dim]) and [detokenize]. *)
Record VideoTokenizer : Type := {
  tokenize : list Frame -> result VideoIndices;
  vt_get_latents_from_indices : VideoIndices -> option Z -> result Latents;
  detokenize : Latents -> result (list Frame)
}.

(** [self.lam]: [quantizer.codebook_size] and
    [quantizer.get_latents_from_indices] on the tensor [[[[id]]]]. *)
Record LatentActionModel : Type := {
  codebook_size : Z;
  lam_get_latents_from_indices : Z -> result ActionLatent
}.

(** [self.dynamics.forward_inference(context_latents, prediction_horizon,
    num_steps, index_to_latents_fn, conditioning, temperature)]. *)
Record DynamicsModel : Type := {
  forward_inference :
    Latents -> Z -> Z -> (VideoIndices -> result Latents) ->
    option ActionLatent -> Q -> result Latents
}.

(** The attributes that [__init__] sets. *)
Record GenieInferenceSession : Type := {
  vt : VideoTokenizer;
  lam : option LatentActionModel;
  dynamics : DynamicsModel;
  device : string;
  context_window : Z;
  temperature : Q;
  prediction_horizon : Z;
  amp : bool;
  generated_frames : option (list Frame)
}.

(** [GenieInferenceSession(vt, lam, dynamics, device, context_window=4,
    temperature=0.5, prediction_horizon=1, amp=True)] *)
Definition init (video_tokenizer : VideoTokenizer)
    (latent_action_model : option LatentActionModel)
    (dynamics_model : DynamicsModel) (dev : string)
    (cw : Z) (temp : Q) (ph : Z) (use_amp : bool) : GenieInferenceSession :=
  {| vt := video_tokenizer; lam := latent_action_model; dynamics := dynamics_model;
     device := dev; context_window := cw; temperature := temp;
     prediction_horizon := ph; amp := use_amp; generated_frames := None |}.

Definition with_generated_frames (self : GenieInferenceSession)
    (frames : option (list Frame)) : GenieInferenceSession :=
  {| vt := vt self; lam := lam self; dynamics := dynamics self;
     device := device self; context_window := context_window self;
     temperature := temperature self; prediction_horizon := prediction_horizon self;
     amp := amp self; generated_frames := frames |}.

(** [set_initial_context]: [self.generated_frames = frames.to(self.device)] *)
Definition set_initial_context (self : GenieInferenceSession) (frames : list Frame)
    : GenieInferenceSession :=
  with_generated_frames self (Some frames).

(** ** Calls to the models, and the state a step runs in *)

Inductive Call : Type :=
| CallTokenize (context : list Frame)
| CallVideoLatents (indices : VideoIndices)
| CallActionLatent (action_id : Z)
| CallForwardInference (context_latents : Latents) (horizon num_steps : Z)
    (conditioning : option ActionLatent) (temp : Q)
| CallDetokenize (latents : Latents).

(** One entry of the call log: the call, and whether it raised. *)
Record Logged : Type := { call : Call; raised : bool }.

(** What a run of the server acts on: the session object, shared by
    everything that holds a reference to it; the log of the calls made to the
    models so far (oldest first); the binary messages sent, each with the
    address of the peer it went to; and the lines printed. *)
Record State : Type := {
  session : GenieInferenceSession;
  calls : list Logged;
  outbox : list (string * string);
  stdout : list string
}.

Definition M (A : Type) : Type := State -> result A * State.

Definition ret {A} (a : A) : M A := fun st => (Ok a, st).

Definition bind {A B} (m : M A) (k : A -> M B) : M B :=
  fun st =>
    match m st with
    | (Ok a, st') => k a st'
    | (Raise e, st') => (Raise e, st')
    end.

Definition lift {A} (r : result A) : M A := fun st => (r, st).

Definition get_self : M GenieInferenceSession := fun st => (Ok (session st), st).

Definition set_generated_frames (frames : list Frame) : M unit :=
  fun st => (Ok tt, {| session := with_generated_frames (session st) (Some frames);
                       calls := calls st; outbox := outbox st; stdout := stdout st |}).

Definition logged (c : Call) (r : bool) : Logged :=
  {| call := c; raised := r |}.

(** A call to a model: logged, and its result or exception passed on. *)
Definition invoke {A} (c : Call) (r : result A) : M A :=
  fun st => (r, {| session := session st;
                   calls := calls st ++ [logged c (negb (is_ok r))];
                   outbox := outbox st; stdout := stdout st |}).

Definition raise {A} (e : Exception) : M A := fun st => (Raise e, st).

(** [try: body except Exception as e: handler(e)] *)
Definition try_except (body : M unit) (handler : Exception -> M unit) : M unit :=
  fun st =>
    match body st with
    | (Ok tt, st') => (Ok tt, st')
    | (Raise e, st') => handler e st'
    end.

(** [try: body finally: final] *)
Definition try_finally (body : M unit) (final : M unit) : M unit :=
  fun st =>
    match body st with
    | (Ok tt, st') => final st'
    | (Raise e, st') =>
        match final st' with
        | (Ok tt, st'') => (Raise e, st'')
        | (Raise e', st'') => (Raise e', st'')
        end
    end.

(** [print(line)] *)
Definition print (line : string) : M unit :=
  fun st => (Ok tt, {| session := session st; calls := calls st;
                       outbox := outbox st; stdout := stdout st ++ [line] |}).

(** [await websocket.send(data)] on the connection of the given peer.  The
    connection is taken to be open while its messages are being read. *)
Definition send (peer : string) (data : string) : M unit :=
  fun st => (Ok tt, {| session := session st; calls := calls st;
                       outbox := outbox st ++ [(peer, data)]; stdout := stdout st |}).

End Session.

Arguments VideoTokenizer : clear implicits.
Arguments LatentActionModel : clear implicits.
Arguments DynamicsModel : clear implicits.
Arguments GenieInferenceSession : clear implicits.
Arguments Call : clear implicits.
Arguments Logged : clear implicits.
Arguments State : clear implicits.
Arguments M : clear implicits.

Declare Scope py_scope.
Delimit Scope py_scope with py.
Notation "x <- m ;; k" := (bind m (fun x => k))
  (at level 61, m at next level, right associativity) : py_scope.
Notation "m ;; k" := (bind m (fun _ => k))
  (at level 61, right associativity) : py_scope.
Open Scope py_scope.

(** ** [GenieInferenceSession.step] *)

Section Step.

Context {VideoIndices Latents ActionLatent : Type}.

Local Abbreviation Session := (GenieInferenceSession VideoIndices Latents ActionLatent).
Local Abbreviation Mon := (M VideoIndices Latents ActionLatent).

(** [n_actions = self.lam.quantizer.codebook_size if self.lam is not None else 1] *)
Definition n_actions_of (self : Session) : Z :=
  match lam self with
  | Some l => codebook_size l
  | None => 1
  end.

(** Lines 73-77: the action latent, looked up only when there is an action
    model. *)
Definition action_conditioning (self : Session) (action_id : Z) : Mon (option ActionLatent) :=
  match lam self with
  | Some l =>
      latent <- invoke (CallActionLatent action_id)
                       (lam_get_latents_from_indices l action_id) ;;
      ret (Some latent)
  | None => ret None
  end.

(** Lines 94-96: [self.generated_frames = torch.cat([self.generated_frames,
    next_frames[:, -self.prediction_horizon:]], dim=1)]. *)
Definition append_frames (next_frames : list Frame) : Mon unit :=
  self <- get_self ;;
  match generated_frames self with
  | Some frames =>
      set_generated_frames (frames ++ slice_from (- prediction_horizon self) next_frames)
  | None => raise TypeError
  end.

(** Lines 59-101.  The log records the calls [step] itself makes.  The
    closure [idx_to_latents] of lines 79-80 is handed to the dynamics model,
    which may call it any number of times inside [forward_inference]; those
    lookups are part of that call and are not logged. *)
Definition step (action_id : Z) : Mon Image :=
  self <- get_self ;;
  match generated_frames self with
  | None => raise (RuntimeError "Call set_initial_context first")
  | Some frames =>
      let context := slice_from (- context_window self) frames in
      video_indices <- invoke (CallTokenize context) (tokenize (vt self) context) ;;
      video_latents <- invoke (CallVideoLatents video_indices)
                              (vt_get_latents_from_indices (vt self) video_indices None) ;;
      let n_actions := n_actions_of self in
      action_id <- lift (py_mod action_id n_actions) ;;
      action_latent <- action_conditioning self action_id ;;
      let idx_to_latents :=
        fun idx => vt_get_latents_from_indices (vt self) idx (Some (-1)) in
      next_latents <-
        invoke (CallForwardInference video_latents (prediction_horizon self) 10
                                     action_latent (temperature self))
               (forward_inference (dynamics self) video_latents (prediction_horizon self)
                                  10 idx_to_latents action_latent (temperature self)) ;;
      next_frames <- invoke (CallDetokenize next_latents)
                            (detokenize (vt self) next_latents) ;;
      append_frames next_frames ;;
      frame <- lift (index_last next_frames) ;;
      ret (frame_to_uint8 frame)
  end.

(** The calls that a computation adds to the log when run from [st]. *)
Definition calls_of {A} (m : Mon A) (st : State VideoIndices Latents ActionLatent)
    : list (Logged VideoIndices Latents ActionLatent) :=
  skipn (length (calls st)) (calls (snd (m st))).

(** A session run from a state with nothing logged, sent or printed. *)
Definition fresh_state (s : Session) : State VideoIndices Latents ActionLatent :=
  {| session := s; calls := []; outbox := []; stdout := [] |}.

(** The history of a state: [None] before [set_initial_context]. *)
Definition history (st : State VideoIndices Latents ActionLatent) : option (list Frame) :=
  generated_frames (session st).

(** The time dimension of [generated_frames]; nothing before
    [set_initial_context]. *)
Definition history_length (st : State VideoIndices Latents ActionLatent) : nat :=
  match history st with
  | Some frames => length frames
  | None => 0
  end.

(** Several calls of [step], one after another, as long as none raises;
    the images returned, in order. *)
Fixpoint steps (actions : list Z) : Mon (list Image) :=
  match actions with
  | [] => ret []
  | a :: rest =>
      frame <- step a ;;
      frames <- steps rest ;;
      ret (frame :: frames)
  end.

(** [h'] is [h] with frames appended (both absent before
    [set_initial_context]). *)
Definition history_extended (h h' : option (list Frame)) : Prop :=
  match h, h' with
  | None, None => True
  | Some frames, Some frames' => exists added, frames' = frames ++ added
  | _, _ => False
  end.

(** *** The ways through [step] *)

(** The conditioning and the call that produced it, when there is an action
    model. *)
Inductive conditioning_of (s : Session) (a : Z) :
    option ActionLatent -> list (Logged VideoIndices Latents ActionLatent) -> Prop :=
| conditioning_absent :
    lam s = None -> conditioning_of s a None []
| conditioning_looked_up l latent :
    lam s = Some l -> codebook_size l <> 0 ->
    lam_get_latents_from_indices l (a mod codebook_size l) = Ok latent ->
    conditioning_of s a (Some latent)
      [logged (CallActionLatent (a mod codebook_size l)) false].

(** Lines 82-101: prediction, decoding, the append and the conversion. *)
Inductive prediction_path (s : Session) (frames : list Frame) (lat : Latents)
    (cond : option ActionLatent) :
    result Image -> option (list Frame) -> list (Logged VideoIndices Latents ActionLatent) -> Prop :=
| path_predict_raises e :
    forward_inference (dynamics s) lat (prediction_horizon s) 10
      (fun idx => vt_get_latents_from_indices (vt s) idx (Some (-1)))
      cond (temperature s) = Raise e ->
    prediction_path s frames lat cond (Raise e) (Some frames)
      [logged (CallForwardInference lat (prediction_horizon s) 10 cond (temperature s)) true]
| path_detokenize_raises next_latents e :
    forward_inference (dynamics s) lat (prediction_horizon s) 10
      (fun idx => vt_get_latents_from_indices (vt s) idx (Some (-1)))
      cond (temperature s) = Ok next_latents ->
    detokenize (vt s) next_latents = Raise e ->
    prediction_path s frames lat cond (Raise e) (Some frames)
      [logged (CallForwardInference lat (prediction_horizon s) 10 cond (temperature s)) false;
       logged (CallDetokenize next_latents) true]
| path_no_frame next_latents :
    forward_inference (dynamics s) lat (prediction_horizon s) 10
      (fun idx => vt_get_latents_from_indices (vt s) idx (Some (-1)))
      cond (temperature s) = Ok next_latents ->
    detokenize (vt s) next_latents = Ok [] ->
    prediction_path s frames lat cond (Raise IndexError) (Some frames)
      [logged (CallForwardInference lat (prediction_horizon s) 10 cond (temperature s)) false;
       logged (CallDetokenize next_latents) false]
| path_returns next_latents next_frames frame :
    forward_inference (dynamics s) lat (prediction_horizon s) 10
      (fun idx => vt_get_latents_from_indices (vt s) idx (Some (-1)))
      cond (temperature s) = Ok next_latents ->
    detokenize (vt s) next_latents = Ok next_frames ->
    index_last next_frames = Ok frame ->
    prediction_path s frames lat cond (Ok (frame_to_uint8 frame))
      (Some (frames ++ slice_from (- prediction_horizon s) next_frames))
      [logged (CallForwardInference lat (prediction_horizon s) 10 cond (temperature s)) false;
       logged (CallDetokenize next_latents) false].

(** The ways through [step], one constructor per exit: the outcome, the
    history afterwards and the calls logged on the way. *)
Inductive step_path (s : Session) (a : Z) :
    result Image -> option (list Frame) -> list (Logged VideoIndices Latents ActionLatent) -> Prop :=
| path_uninitialized :
    generated_frames s = None ->
    step_path s a (Raise (RuntimeError "Call set_initial_context first")) None []
| path_tokenize_raises frames e :
    generated_frames s = Some frames ->
    tokenize (vt s) (slice_from (- context_window s) frames) = Raise e ->
    step_path s a (Raise e) (Some frames)
      [logged (CallTokenize (slice_from (- context_window s) frames)) true]
| path_latents_raise frames idx e :
    generated_frames s = Some frames ->
    tokenize (vt s) (slice_from (- context_window s) frames) = Ok idx ->
    vt_get_latents_from_indices (vt s) idx None = Raise e ->
    step_path s a (Raise e) (Some frames)
      [logged (CallTokenize (slice_from (- context_window s) frames)) false;
       logged (CallVideoLatents idx) true]
| path_zero_codebook frames idx lat :
    generated_frames s = Some frames ->
    tokenize (vt s) (slice_from (- context_window s) frames) = Ok idx ->
    vt_get_latents_from_indices (vt s) idx None = Ok lat ->
    n_actions_of s = 0 ->
    step_path s a (Raise ZeroDivisionError) (Some frames)
      [logged (CallTokenize (slice_from (- context_window s) frames)) false;
       logged (CallVideoLatents idx) false]
| path_action_raises frames idx lat l e :
    generated_frames s = Some frames ->
    tokenize (vt s) (slice_from (- context_window s) frames) = Ok idx ->
    vt_get_latents_from_indices (vt s) idx None = Ok lat ->
    lam s = Some l -> codebook_size l <> 0 ->
    lam_get_latents_from_indices l (a mod codebook_size l) = Raise e ->
    step_path s a (Raise e) (Some frames)
      [logged (CallTokenize (slice_from (- context_window s) frames)) false;
       logged (CallVideoLatents idx) false;
       logged (CallActionLatent (a mod codebook_size l)) true]
| path_after_conditioning frames idx lat cond cond_calls r h rest :
    generated_frames s = Some frames ->
    tokenize (vt s) (slice_from (- context_window s) frames) = Ok idx ->
    vt_get_latents_from_indices (vt s) idx None = Ok lat ->
    conditioning_of s a cond cond_calls ->
    prediction_path s frames lat cond r h rest ->
    step_path s a r h
      (logged (CallTokenize (slice_from (- context_window s) frames)) false ::
       logged (CallVideoLatents idx) false :: cond_calls ++ rest).

End Step.

(** ** Client messages *)

(** What [json.loads] returns. *)
Inductive JSON : Type :=
| JNull
| JBool (b : bool)
| JInt (z : Z)
| JFloat (q : Q)
| JNaN
| JInfinity (negative : bool)
| JString (s : string)
| JArray (items : list JSON)
| JObject (members : list (string * JSON)).

(** [data.get(key, default)]: only a dict has [get].  The members of a
    [JObject] are those of the dict, one per key. *)
Fixpoint assoc_get (members : list (string * JSON)) (key : string) (default : JSON) : JSON :=
  match members with
  | [] => default
  | (k, v) :: rest => if String.eqb k key then v else assoc_get rest key default
  end.

Definition json_get (data : JSON) (key : string) (default : JSON) : result JSON :=
  match data with
  | JObject members => Ok (assoc_get members key default)
  | _ => Raise AttributeError
  end.

(** [int(x)] on a decoded JSON value; [int_of_str] is [int] on a [str]. *)
Definition py_int (int_of_str : string -> result Z) (x : JSON) : result Z :=
  match x with
  | JInt z => Ok z
  | JBool b => Ok (if b then 1 else 0)
  | JFloat q => Ok (Qtrunc q)
  | JNaN => Raise ValueError
  | JInfinity _ => Raise OverflowError
  | JString s => int_of_str s
  | JNull | JArray _ | JObject _ => Raise TypeError
  end.

(** [str(e)] as far as the handler prints it: the message of a
    [RuntimeError] raised by the session, the name of the class otherwise. *)
Definition str_of_exception (e : Exception) : string :=
  match e with
  | RuntimeError msg => msg
  | GatewayFailure msg => msg
  | ZeroDivisionError => "integer modulo by zero"
  | IndexError => "IndexError"
  | AttributeError => "AttributeError"
  | TypeError => "TypeError"
  | ValueError => "ValueError"
  | OverflowError => "OverflowError"
  | JSONDecodeError => "JSONDecodeError"
  end.

(** A connection: the address of the peer and the messages it sends, in
    order, until it closes. *)
Record Websocket : Type := { remote_address : string; incoming : list string }.

(** ** [handle_client] and [main] *)

Section Server.

Context {VideoIndices Latents ActionLatent : Type}.

(** The libraries the handler calls: [json.loads], [int] on a string, and
    [frame_to_png_bytes] (PIL's PNG encoder). *)
Variable json_loads : string -> result JSON.
Variable int_of_str : string -> result Z.
Variable frame_to_png_bytes : Image -> result string.

Local Abbreviation Session := (GenieInferenceSession VideoIndices Latents ActionLatent).
Local Abbreviation Mon := (M VideoIndices Latents ActionLatent).

(** Lines 115-116: decoding of one message to an action id. *)
Definition decode_action (message : string) : result Z :=
  match json_loads message with
  | Raise e => Raise e
  | Ok data =>
      match json_get data "action" (JInt 0) with
      | Raise e => Raise e
      | Ok v => py_int int_of_str v
      end
  end.

(** Lines 115-119: the body of the loop, for one message. *)
Definition handle_message (peer : string) (message : string) : Mon unit :=
  action_id <- lift (decode_action message) ;;
  frame <- step action_id ;;
  png_bytes <- lift (frame_to_png_bytes frame) ;;
  send peer png_bytes.

(** [async for message in websocket: ...] *)
Fixpoint handle_loop (peer : string) (messages : list string) : Mon unit :=
  match messages with
  | [] => ret tt
  | message :: rest => handle_message peer message ;; handle_loop peer rest
  end.

Definition handle_client (websocket : Websocket) : Mon unit :=
  print ("Client connected: " ++ remote_address websocket) ;;
  try_finally
    (try_except (handle_loop (remote_address websocket) (incoming websocket))
                (fun e => print ("Session error: " ++ str_of_exception e)))
    (print "Client disconnected").

(** Lines 161-175 of [main]: the one session of the process, with its
    initial context. *)
Definition main_session (video_tokenizer : VideoTokenizer VideoIndices Latents)
    (latent_action_model : option (LatentActionModel ActionLatent))
    (dynamics_model : DynamicsModel VideoIndices Latents ActionLatent)
    (dev : string) (cw : Z) (temp : Q) (ph : Z) (use_amp : bool)
    (initial_frames : list Frame) : Session :=
  set_initial_context
    (init video_tokenizer latent_action_model dynamics_model dev cw temp ph use_amp)
    initial_frames.

(** Lines 180-185: [websockets.serve(lambda ws: handle_client(ws, session))].
    Every connection is handled with the same [session]; here the
    connections come one after another. *)
Fixpoint serve (connections : list Websocket) : Mon unit :=
  match connections with
  | [] => ret tt
  | ws :: rest => handle_client ws ;; serve rest
  end.

End Server.

(** ** Small models for concrete runs

    A tokenizer whose tokens and latents are the frames themselves, an action
    model whose latent is the action id, and a dynamics model that predicts,
    for horizon [H], the [H] oldest frames of its context. *)

Module Toy.

Definition Indices : Type := list Frame.
Definition Lat : Type := list Frame.
Definition ActLat : Type := Z.

Definition pixel (v : Q) : Frame := [[[v]]].

Definition toy_vt : VideoTokenizer Indices Lat :=
  {| tokenize := fun context => Ok context;
     vt_get_latents_from_indices := fun idx _ => Ok idx;
     detokenize := fun latents => Ok latents |}.

Definition failing_vt : VideoTokenizer Indices Lat :=
  {| tokenize := fun _ => Raise (GatewayFailure "tokenize");
     vt_get_latents_from_indices := fun idx _ => Ok idx;
     detokenize := fun latents => Ok latents |}.

Definition toy_lam (n : Z) : LatentActionModel ActLat :=
  {| codebook_size := n; lam_get_latents_from_indices := fun id => Ok id |}.

Definition toy_dynamics : DynamicsModel Indices Lat ActLat :=
  {| forward_inference := fun context_latents horizon _ _ _ _ =>
       Ok (firstn (Z.to_nat horizon) context_latents) |}.

Definition seed4 : list Frame := [pixel (-1); pixel (-1 # 2); pixel 0; pixel 1].

(** Four seed frames, W = 4, H = 1, a codebook of three actions. *)
Definition session4 : GenieInferenceSession Indices Lat ActLat :=
  main_session toy_vt (Some (toy_lam 3)) toy_dynamics "cpu" 4 (1 # 2) 1 true seed4.

(** The same, with a codebook of five actions. *)
Definition session5 : GenieInferenceSession Indices Lat ActLat :=
  main_session toy_vt (Some (toy_lam 5)) toy_dynamics "cpu" 4 (1 # 2) 1 true seed4.

(** The same, with a tokenizer that raises. *)
Definition session_failing : GenieInferenceSession Indices Lat ActLat :=
  main_session failing_vt (Some (toy_lam 3)) toy_dynamics "cpu" 4 (1 # 2) 1 true seed4.

(** Two seed frames only, for a window of four. *)
Definition session_short : GenieInferenceSession Indices Lat ActLat :=
  main_session toy_vt (Some (toy_lam 3)) toy_dynamics "cpu" 4 (1 # 2) 1 true
               [pixel (-1 # 2); pixel 1].

(** A window of two over two seed frames. *)
Definition session2 : GenieInferenceSession Indices Lat ActLat :=
  main_session toy_vt (Some (toy_lam 3)) toy_dynamics "cpu" 2 (1 # 2) 1 true
               [pixel (-1); pixel 1].

(** A session on which [set_initial_context] was never called. *)
Definition session_uninitialized : GenieInferenceSession Indices Lat ActLat :=
  init toy_vt (Some (toy_lam 3)) toy_dynamics "cpu" 4 (1 # 2) 1 true.

(** Messages are the decimal action id, or anything else, which does not
    decode. *)
Definition toy_json_loads (message : string) : result JSON :=
  if String.eqb message "0" then Ok (JObject [("action"%string, JInt 0)])
  else if String.eqb message "1" then Ok (JObject [("action"%string, JInt 1)])
  else if String.eqb message "2" then Ok (JObject [("action"%string, JInt 2)])
  else if String.eqb message "{}" then Ok (JObject [])
  else Raise JSONDecodeError.

Definition toy_int_of_str (s : string) : result Z := Raise ValueError.

Definition toy_png (frame : Image) : result string :=
  match frame with
  | [[[v]]] =>
      if v =? 0 then Ok "black"%string
      else if v =? 255 then Ok "white"%string
      else Ok "grey"%string
  | _ => Ok "image"%string
  end.

Definition toy_handle_client :=
  @handle_client Indices Lat ActLat toy_json_loads toy_int_of_str toy_png.


(** Further sessions: without an action model, with an empty codebook, with
    a window of zero, and with a decoder that returns no frame. *)
Definition session_no_lam : GenieInferenceSession Indices Lat ActLat :=
  main_session toy_vt None toy_dynamics "cpu" 4 (1 # 2) 1 true seed4.

Definition session_zero_codebook : GenieInferenceSession Indices Lat ActLat :=
  main_session toy_vt (Some (toy_lam 0)) toy_dynamics "cpu" 4 (1 # 2) 1 true seed4.

Definition session_window_zero : GenieInferenceSession Indices Lat ActLat :=
  main_session toy_vt (Some (toy_lam 3)) toy_dynamics "cpu" 0 (1 # 2) 1 true seed4.

Definition empty_decoder_vt : VideoTokenizer Indices Lat :=
  {| tokenize := fun context => Ok context;
     vt_get_latents_from_indices := fun idx _ => Ok idx;
     detokenize := fun _ => Ok [] |}.

Definition session_empty_decoder : GenieInferenceSession Indices Lat ActLat :=
  main_session empty_decoder_vt (Some (toy_lam 3)) toy_dynamics "cpu" 4 (1 # 2) 1 true
               seed4.

(** A PNG encoder that raises. *)
Definition failing_png (frame : Image) : result string :=
  Raise (GatewayFailure "cannot write mode").

End Toy.

(** * The capture server

    A shallow embedding of [genie-worldmodel/scripts/capture_server.py]: the
    class [FrameWriter] ([__init__], [add_frame], [finalize]), the coroutine
    [handler] and the part of [main] that creates the writer, serves the
    connections and finalizes.

    PIL, OpenCV and [os] are external: decoding and resizing an image,
    [os.makedirs] and [os.path.getsize] are functions which may raise;
    what is asked of OpenCV and of the file system is recorded in a log of
    effects.  A printed line is represented by the values formatted into
    it. *)

Module Capture.

(** [np.array(img)] of an RGB image: rows of pixels, shape [h, w, 3]. *)
Definition Pixel : Type := (Z * Z * Z)%type.
Definition Picture : Type := list (list Pixel).

(** [cv2.cvtColor(frame, cv2.COLOR_RGB2BGR)] *)
Definition cvtColor_RGB2BGR (frame : Picture) : Picture :=
  map (map (fun px : Pixel => let '(r, g, b) := px in (b, g, r))) frame.

(** [frame.shape[:2]] *)
Definition shape2 (frame : Picture) : Z * Z :=
  (Z.of_nat (length frame), Z.of_nat (length (hd [] frame))).

(** What [cv2.VideoWriter(path, fourcc, fps, size)] was built with. *)
Record VideoWriter : Type := {
  vw_path : string;
  vw_fourcc : string;
  vw_fps : Z;
  vw_size : Z * Z
}.

(** The attributes of a [FrameWriter]. *)
Record FrameWriter : Type := {
  output_path : string;
  fps : Z;
  resolution : Z * Z;
  writer : option VideoWriter;
  frame_count : Z
}.

(** [FrameWriter(output_path, fps=30, resolution=(128, 128))] *)
Definition init (path : string) (fps_ : Z) (resolution_ : Z * Z) : FrameWriter :=
  {| output_path := path; fps := fps_; resolution := resolution_;
     writer := None; frame_count := 0 |}.

Inductive Effect : Type :=
| MakeDirs (path : string)
| OpenWriter (w : VideoWriter)
| WriteFrame (frame : Picture)
| ReleaseWriter
| GetSize (path : string).

Inductive Line : Type :=
| LineConnected (peer : string)
| LineCaptured (frames : Z)
| LineConnectionError (e : Exception)
| LineDisconnected (total : Z)
| LineSaved (path : string) (frames : Z) (duration size_mb : Q)
| LineListening (host : string) (port : Z)
| LineOutput (path : string) (fps_ : Z) (resolution_ : Z * Z).

(** The writer object, shared by all handlers; the effects so far, oldest
    first; the lines printed. *)
Record World : Type := {
  self : FrameWriter;
  effects : list Effect;
  printed : list Line
}.

Definition C (A : Type) : Type := World -> result A * World.

Definition ret {A} (a : A) : C A := fun w => (Ok a, w).

Definition bind {A B} (m : C A) (k : A -> C B) : C B :=
  fun w =>
    match m w with
    | (Ok a, w') => k a w'
    | (Raise e, w') => (Raise e, w')
    end.

Definition lift {A} (r : result A) : C A := fun w => (r, w).

Definition get_self : C FrameWriter := fun w => (Ok (self w), w).

Definition effect (e : Effect) : C unit :=
  fun w => (Ok tt, {| self := self w; effects := effects w ++ [e];
                      printed := printed w |}).

Definition print (line : Line) : C unit :=
  fun w => (Ok tt, {| self := self w; effects := effects w;
                      printed := printed w ++ [line] |}).

(** [self.writer = v] *)
Definition set_writer (v : VideoWriter) : C unit :=
  fun w => (Ok tt,
            {| self := {| output_path := output_path (self w); fps := fps (self w);
                          resolution := resolution (self w); writer := Some v;
                          frame_count := frame_count (self w) |};
               effects := effects w; printed := printed w |}).

(** [self.frame_count += 1] *)
Definition increment_frame_count : C unit :=
  fun w => (Ok tt,
            {| self := {| output_path := output_path (self w); fps := fps (self w);
                          resolution := resolution (self w); writer := writer (self w);
                          frame_count := frame_count (self w) + 1 |};
               effects := effects w; printed := printed w |}).

Definition try_except (body : C unit) (handler : Exception -> C unit) : C unit :=
  fun w =>
    match body w with
    | (Ok tt, w') => (Ok tt, w')
    | (Raise e, w') => handler e w'
    end.

Definition try_finally (body : C unit) (final : C unit) : C unit :=
  fun w =>
    match body w with
    | (Ok tt, w') => final w'
    | (Raise e, w') =>
        match final w' with
        | (Ok tt, w'') => (Raise e, w'')
        | (Raise e', w'') => (Raise e', w'')
        end
    end.

Declare Scope capture_scope.
Notation "x <- m ;; k" := (bind m (fun x => k))
  (at level 61, m at next level, right associativity) : capture_scope.
Notation "m ;; k" := (bind m (fun _ => k))
  (at level 61, right associativity) : capture_scope.
Local Open Scope capture_scope.

(** A message of the connection: [str] or [bytes]. *)
Inductive Message : Type :=
| Text (s : string)
| Binary (data : string).

Record Websocket : Type := { remote_address : string; incoming : list Message }.

(** [a / b] on integers. *)
Definition py_truediv (a b : Z) : result Q :=
  if b =? 0 then Raise ZeroDivisionError else Ok (inject_Z a / inject_Z b)%Q.

Section Server.

(** [Image.open(io.BytesIO(data)).convert("RGB")], [img.resize(size,
    Image.LANCZOS)], [os.path.dirname], [os.makedirs(path, exist_ok=True)]
    and [os.path.getsize]. *)
Variable image_open : string -> result Picture.
Variable resize : Z * Z -> Picture -> result Picture.
Variable dirname : string -> string.
Variable makedirs : string -> result unit.
Variable getsize : string -> result Z.

(** Lines 43-47: the video file is opened for the first frame. *)
Definition open_writer_if_none (frame_bgr : Picture) : C unit :=
  this <- get_self ;;
  match writer this with
  | None =>
      let '(h, w) := shape2 frame_bgr in
      let fourcc := "mp4v"%string in
      let dir := dirname (output_path this) in
      let dir := if String.eqb dir "" then "."%string else dir in
      effect (MakeDirs dir) ;;
      lift (makedirs dir) ;;
      let v := {| vw_path := output_path this; vw_fourcc := fourcc;
                  vw_fps := fps this; vw_size := (w, h) |} in
      effect (OpenWriter v) ;;
      set_writer v
  | Some _ => ret tt
  end.

Definition add_frame (jpeg_bytes : string) : C unit :=
  img <- lift (image_open jpeg_bytes) ;;
  this <- get_self ;;
  img <- lift (resize (resolution this) img) ;;
  let frame := img in
  let frame_bgr := cvtColor_RGB2BGR frame in
  open_writer_if_none frame_bgr ;;
  effect (WriteFrame frame_bgr) ;;
  increment_frame_count ;;
  this <- get_self ;;
  if frame_count this mod 100 =? 0
  then print (LineCaptured (frame_count this))
  else ret tt.

Definition finalize : C unit :=
  this <- get_self ;;
  match writer this with
  | Some _ =>
      effect ReleaseWriter ;;
      duration <- lift (py_truediv (frame_count this) (fps this)) ;;
      effect (GetSize (output_path this)) ;;
      size <- lift (getsize (output_path this)) ;;
      let size_mb := (inject_Z size / inject_Z (1024 * 1024))%Q in
      print (LineSaved (output_path this) (frame_count this) duration size_mb)
  | None => ret tt
  end.

(** [async for message in websocket: if isinstance(message, bytes): ...] *)
Fixpoint handler_loop (messages : list Message) : C unit :=
  match messages with
  | [] => ret tt
  | Binary data :: rest => add_frame data ;; handler_loop rest
  | Text _ :: rest => handler_loop rest
  end.

Definition handler (websocket : Websocket) : C unit :=
  print (LineConnected (remote_address websocket)) ;;
  try_finally
    (try_except (handler_loop (incoming websocket))
                (fun e => print (LineConnectionError e)))
    (this <- get_self ;; print (LineDisconnected (frame_count this))).

(** [websockets.serve(lambda ws: handler(ws, writer), ...)], the connections
    coming one after another. *)
Fixpoint serve (connections : list Websocket) : C unit :=
  match connections with
  | [] => ret tt
  | ws :: rest => handler ws ;; serve rest
  end.

(** [main]: the writer is created, the two lines are printed, the
    connections are served until the server is cancelled, and the writer is
    finalized. *)
Definition main (output : string) (port : Z) (host : string) (fps_ : Z)
    (resolution_ : Z * Z) (connections : list Websocket) : result unit * World :=
  (print (LineListening host port) ;;
   print (LineOutput output fps_ resolution_) ;;
   try_finally (serve connections) finalize)
    {| self := init output fps_ resolution_; effects := []; printed := [] |}.

End Server.

(** The lines that a frame which brings the count to [c] prints. *)
Definition progress_lines (c : Z) : list Line :=
  if c mod 100 =? 0 then [LineCaptured c] else [].

(** [isinstance(message, bytes)] *)
Definition is_binary (m : Message) : bool :=
  match m with Binary _ => true | Text _ => false end.

(** The frames written, in order. *)
Fixpoint frames_written (log : list Effect) : list Picture :=
  match log with
  | [] => []
  | WriteFrame frame :: rest => frame :: frames_written rest
  | _ :: rest => frames_written rest
  end.

(** The video files opened, in order. *)
Fixpoint writers_opened (log : list Effect) : list VideoWriter :=
  match log with
  | [] => []
  | OpenWriter v :: rest => v :: writers_opened rest
  | _ :: rest => writers_opened rest
  end.

(** The frame count is the number of frames written; the writer of the
    object is the one video file opened, if any; and it is absent exactly as
    long as no frame was written. *)
Definition consistent (w : World) : Prop :=
  frame_count (self w) = Z.of_nat (length (frames_written (effects w))) /\
  writers_opened (effects w) =
  match writer (self w) with
  | Some v => [v]
  | None => []
  end /\
  (writer (self w) = None <-> frames_written (effects w) = []).

(** Concrete runs: a data message decodes to a one-pixel picture unless it
    is the message [corrupt]. *)
Definition toy_image_open (data : string) : result Picture :=
  if String.eqb data "corrupt" then Raise (GatewayFailure "cannot identify image file")
  else Ok [[(255, 0, 0)]].

Definition toy_resize (size : Z * Z) (img : Picture) : result Picture := Ok img.

Definition toy_dirname (path : string) : string :=
  if String.eqb path "data/out.mp4" then "data"%string else ""%string.

Definition toy_makedirs (path : string) : result unit := Ok tt.

Definition toy_getsize (path : string) : result Z := Ok 2097152.

Definition toy_handler :=
  handler toy_image_open toy_resize toy_dirname toy_makedirs.

Definition toy_main :=
  main toy_image_open toy_resize toy_dirname toy_makedirs toy_getsize.

Definition fresh (fw : FrameWriter) : World :=
  {| self := fw; effects := []; printed := [] |}.

End Capture.

(** * Properties *)

(** ** Rounding to the nearest integer *)

Lemma round_half_even_near_floor (q : Q) :
  round_half_even q = Qfloor q \/ round_half_even q = Qfloor q + 1.
Proof.
  unfold round_half_even.
  destruct (_ ?= _)%Q; [destruct (Z.even _)| |]; auto.
Qed.

Lemma round_half_even_comp (p q : Q) :
  (p == q)%Q -> round_half_even p = round_half_even q.
Proof.
  intros H. unfold round_half_even.
  rewrite (Qfloor_comp p q H).
  assert (Hc : ((p - inject_Z (Qfloor q)) ?= (1 # 2))%Q
               = ((q - inject_Z (Qfloor q)) ?= (1 # 2))%Q)
    by (apply Qcompare_comp; [rewrite H|]; reflexivity).
  rewrite Hc. reflexivity.
Qed.

Lemma Qfloor_bounds (q : Q) :
  (inject_Z (Qfloor q) <= q)%Q /\ (q < inject_Z (Qfloor q) + 1)%Q.
Proof.
  split; [apply Qfloor_le|].
  pose proof (Qlt_floor q) as H. rewrite inject_Z_plus in H. exact H.
Qed.

(** The rounded value is within one half of the value. *)
Lemma round_half_even_error (q : Q) :
  (q - (1 # 2) <= inject_Z (round_half_even q))%Q /\
  (inject_Z (round_half_even q) <= q + (1 # 2))%Q.
Proof.
  destruct (Qfloor_bounds q) as [Hlo Hhi].
  unfold round_half_even.
  destruct (_ ?= _)%Q eqn:Hc.
  - apply Qeq_alt in Hc.
    destruct (Z.even _); rewrite ?inject_Z_plus;
      change (inject_Z 1) with 1%Q; split; lra.
  - apply Qlt_alt in Hc. split; lra.
  - apply Qgt_alt in Hc. rewrite inject_Z_plus.
    change (inject_Z 1) with 1%Q. split; lra.
Qed.

Lemma round_half_even_inject (n : Z) : round_half_even (inject_Z n) = n.
Proof.
  unfold round_half_even. rewrite Qfloor_Z.
  assert (H : ((inject_Z n - inject_Z n) ?= (1 # 2))%Q = Lt)
    by (apply (proj1 (Qlt_alt _ _)); lra).
  rewrite H. reflexivity.
Qed.

Lemma round_half_even_down (q : Q) :
  (q - inject_Z (Qfloor q) < 1 # 2)%Q -> round_half_even q = Qfloor q.
Proof.
  intros H. unfold round_half_even.
  apply (proj1 (Qlt_alt _ _)) in H. rewrite H. reflexivity.
Qed.

Lemma round_half_even_up (q : Q) :
  (1 # 2 < q - inject_Z (Qfloor q))%Q -> round_half_even q = Qfloor q + 1.
Proof.
  intros H. unfold round_half_even.
  apply (proj1 (Qgt_alt _ _)) in H. rewrite H. reflexivity.
Qed.

Lemma round_half_even_monotone (p q : Q) :
  (p <= q)%Q -> round_half_even p <= round_half_even q.
Proof.
  intros Hle.
  destruct (Qeq_dec p q) as [Heq|Hne];
    [rewrite (round_half_even_comp p q Heq); lia|].
  assert (Hlt : (p < q)%Q) by (apply Qle_lteq in Hle; tauto).
  pose proof (Qfloor_resp_le p q Hle) as Hfloor.
  pose proof (round_half_even_near_floor p) as Hp.
  pose proof (round_half_even_near_floor q) as Hq.
  destruct (Z.eq_dec (Qfloor p) (Qfloor q)) as [Hsame|Hdiff]; [|lia].
  destruct (Qlt_le_dec (p - inject_Z (Qfloor p)) (1 # 2)) as [Hdown|Hup].
  - rewrite (round_half_even_down p Hdown). lia.
  - rewrite (round_half_even_up q); [lia|]. rewrite <- Hsame. lra.
Qed.

Lemma round_half_even_le (q : Q) (n : Z) :
  (q <= inject_Z n)%Q -> round_half_even q <= n.
Proof.
  intros H. rewrite <- (round_half_even_inject n).
  apply round_half_even_monotone. exact H.
Qed.

Lemma round_half_even_ge (q : Q) (n : Z) :
  (inject_Z n <= q)%Q -> n <= round_half_even q.
Proof.
  intros H. rewrite <- (round_half_even_inject n).
  apply round_half_even_monotone. exact H.
Qed.


(** ** Rounding to float32 *)

Lemma pow2_pos (n : Z) : 0 <= n -> (0 < inject_Z (2 ^ n))%Q.
Proof.
  intros H. change 0%Q with (inject_Z 0). rewrite <- Zlt_Qlt.
  apply Z.pow_pos_nonneg; lia.
Qed.

Lemma f32_shift_nonneg (a : Q) : 0 <= f32_shift a.
Proof. unfold f32_shift. lia. Qed.

Lemma scale_nonneg (a : Q) : (0 <= a)%Q -> (0 <= a * inject_Z (2 ^ 149))%Q.
Proof.
  intros H. apply Qmult_le_0_compat; [exact H|].
  apply Qlt_le_weak, pow2_pos. lia.
Qed.

Lemma scale_monotone (a b : Q) :
  (a <= b)%Q -> (a * inject_Z (2 ^ 149) <= b * inject_Z (2 ^ 149))%Q.
Proof.
  intros H. apply Qmult_le_compat_r; [exact H|].
  apply Qlt_le_weak, pow2_pos. lia.
Qed.

Lemma f32_shift_monotone (a b : Q) :
  (0 <= a)%Q -> (a <= b)%Q -> f32_shift a <= f32_shift b.
Proof.
  intros Ha Hab. unfold f32_shift.
  apply Z.max_le_compat_l, Z.sub_le_mono_r, Z.log2_le_mono, Qfloor_resp_le.
  apply scale_monotone. exact Hab.
Qed.

(** The scaled value is below [2 ^ (shift + 24)], and at least
    [2 ^ (shift + 23)] when the shift is positive. *)
Lemma f32_shift_upper (a : Q) :
  (0 <= a)%Q -> (a * inject_Z (2 ^ 149) <= inject_Z (2 ^ 24 * 2 ^ f32_shift a))%Q.
Proof.
  intros Ha. pose proof (scale_nonneg a Ha) as Ht.
  set (t := (a * inject_Z (2 ^ 149))%Q) in *.
  assert (HN : 0 <= Qfloor t) by (apply (Qfloor_resp_le 0 t); exact Ht).
  assert (Hlt : Qfloor t < 2 ^ (f32_shift a + 24)).
  { unfold f32_shift. fold t.
    destruct (Z.eq_dec (Qfloor t) 0) as [H0|H0].
    - rewrite H0. apply Z.pow_pos_nonneg; lia.
    - destruct (Z.log2_spec (Qfloor t)) as [_ Hhi]; [lia|].
      eapply Z.lt_le_trans; [exact Hhi|].
      apply Z.pow_le_mono_r; lia. }
  rewrite <- Z.pow_add_r by (try lia; apply f32_shift_nonneg).
  rewrite (Z.add_comm 24).
  apply Qlt_le_weak. eapply Qlt_le_trans; [apply Qlt_floor|].
  rewrite <- Zle_Qle. lia.
Qed.

Lemma f32_shift_lower (a : Q) :
  0 < f32_shift a ->
  (inject_Z (2 ^ 23 * 2 ^ f32_shift a) <= a * inject_Z (2 ^ 149))%Q.
Proof.
  intros Hpos. unfold f32_shift in *.
  set (t := (a * inject_Z (2 ^ 149))%Q) in *.
  assert (Hlog : 23 < Z.log2 (Qfloor t)) by lia.
  assert (HN : 0 < Qfloor t).
  { destruct (Z.lt_ge_cases 0 (Qfloor t)) as [H|H]; [exact H|].
    rewrite (Z.log2_nonpos _ H) in Hlog. lia. }
  destruct (Z.log2_spec (Qfloor t) HN) as [Hlo _].
  rewrite Z.max_r by lia.
  rewrite <- Z.pow_add_r by lia.
  replace (23 + (Z.log2 (Qfloor t) - 23)) with (Z.log2 (Qfloor t)) by lia.
  eapply Qle_trans; [|apply Qfloor_le]. rewrite <- Zle_Qle. exact Hlo.
Qed.

Lemma f32_grid_nonneg (a : Q) : (0 <= a)%Q -> 0 <= f32_grid a.
Proof.
  intros Ha. unfold f32_grid.
  apply Z.mul_nonneg_nonneg; [|apply Z.pow_nonneg; lia].
  apply round_half_even_ge. change (inject_Z 0) with 0%Q.
  apply Qle_shift_div_l; [apply pow2_pos, f32_shift_nonneg|].
  rewrite Qmult_0_l. apply scale_nonneg. exact Ha.
Qed.

Lemma f32_grid_upper (a : Q) :
  (0 <= a)%Q -> f32_grid a <= 2 ^ 24 * 2 ^ f32_shift a.
Proof.
  intros Ha. unfold f32_grid.
  apply Z.mul_le_mono_nonneg_r; [apply Z.pow_nonneg; lia|].
  apply round_half_even_le.
  apply Qle_shift_div_r; [apply pow2_pos, f32_shift_nonneg|].
  rewrite <- inject_Z_mult. apply f32_shift_upper. exact Ha.
Qed.

Lemma f32_grid_lower (a : Q) :
  0 < f32_shift a -> 2 ^ 23 * 2 ^ f32_shift a <= f32_grid a.
Proof.
  intros Hpos. unfold f32_grid.
  apply Z.mul_le_mono_nonneg_r; [apply Z.pow_nonneg; lia|].
  apply round_half_even_ge.
  apply Qle_shift_div_l; [apply pow2_pos, f32_shift_nonneg|].
  rewrite <- inject_Z_mult. apply f32_shift_lower. exact Hpos.
Qed.

(** Rounding keeps the order. *)
Lemma f32_grid_monotone (a b : Q) :
  (0 <= a)%Q -> (a <= b)%Q -> f32_grid a <= f32_grid b.
Proof.
  intros Ha Hab.
  pose proof (f32_shift_monotone a b Ha Hab) as Hsh.
  destruct (Z.eq_dec (f32_shift a) (f32_shift b)) as [Heq|Hne].
  - unfold f32_grid. rewrite Heq.
    apply Z.mul_le_mono_nonneg_r; [apply Z.pow_nonneg; lia|].
    apply round_half_even_monotone.
    apply Qmult_le_compat_r; [apply scale_monotone; exact Hab|].
    apply Qlt_le_weak, Qinv_lt_0_compat, pow2_pos, f32_shift_nonneg.
  - pose proof (f32_shift_nonneg a) as Hsa.
    eapply Z.le_trans; [apply f32_grid_upper; exact Ha|].
    eapply Z.le_trans; [|apply f32_grid_lower; lia].
    replace (2 ^ 24) with (2 ^ 23 * 2 ^ 1) by reflexivity.
    rewrite <- Z.mul_assoc, <- Z.pow_add_r by lia.
    apply Z.mul_le_mono_nonneg_l; [lia|].
    apply Z.pow_le_mono_r; lia.
Qed.

Lemma f32_abs_nonneg (a : Q) : (0 <= a)%Q -> (0 <= f32_abs a)%Q.
Proof.
  intros Ha. unfold f32_abs.
  apply Qle_shift_div_l; [apply pow2_pos; lia|].
  rewrite Qmult_0_l. change 0%Q with (inject_Z 0). rewrite <- Zle_Qle.
  apply f32_grid_nonneg. exact Ha.
Qed.

Lemma f32_abs_monotone (a b : Q) :
  (0 <= a)%Q -> (a <= b)%Q -> (f32_abs a <= f32_abs b)%Q.
Proof.
  intros Ha Hab. unfold f32_abs.
  apply Qmult_le_compat_r.
  - rewrite <- Zle_Qle. apply f32_grid_monotone; assumption.
  - apply Qlt_le_weak, Qinv_lt_0_compat, pow2_pos. lia.
Qed.

Lemma f32_grid_comp (a b : Q) : (a == b)%Q -> f32_grid a = f32_grid b.
Proof.
  intros H. unfold f32_grid, f32_shift.
  assert (Ht : (a * inject_Z (2 ^ 149) == b * inject_Z (2 ^ 149))%Q)
    by (rewrite H; reflexivity).
  rewrite (Qfloor_comp _ _ Ht).
  f_equal. apply round_half_even_comp. rewrite Ht. reflexivity.
Qed.

Lemma f32_abs_comp (a b : Q) : (a == b)%Q -> (f32_abs a == f32_abs b)%Q.
Proof.
  intros H. unfold f32_abs. rewrite (f32_grid_comp a b H). reflexivity.
Qed.

Lemma Qle_bool_comp (a b : Q) : (a == b)%Q -> Qle_bool 0 a = Qle_bool 0 b.
Proof.
  intros H. apply eq_true_iff_eq. rewrite !Qle_bool_iff, H. reflexivity.
Qed.

Lemma f32_comp (x y : Q) : (x == y)%Q -> (f32 x == f32 y)%Q.
Proof.
  intros H. unfold f32. rewrite (Qle_bool_comp x y H).
  destruct (Qle_bool 0 y).
  - apply f32_abs_comp. exact H.
  - apply Qopp_comp, f32_abs_comp. rewrite H. reflexivity.
Qed.

Lemma f32_nonneg_case (x : Q) : (0 <= x)%Q -> f32 x = f32_abs x.
Proof.
  intros H. unfold f32. apply Qle_bool_iff in H. rewrite H. reflexivity.
Qed.

Lemma f32_negative_case (x : Q) : (x < 0)%Q -> f32 x = (- f32_abs (- x))%Q.
Proof.
  intros H. unfold f32.
  destruct (Qle_bool 0 x) eqn:E; [|reflexivity].
  apply Qle_bool_iff in E. lra.
Qed.

(** float32 rounding keeps the order of values. *)
Lemma f32_monotone (x y : Q) : (x <= y)%Q -> (f32 x <= f32 y)%Q.
Proof.
  intros Hxy.
  destruct (Qlt_le_dec x 0) as [Hx|Hx]; destruct (Qlt_le_dec y 0) as [Hy|Hy].
  - rewrite (f32_negative_case x Hx), (f32_negative_case y Hy).
    apply Qopp_le_compat. apply f32_abs_monotone; lra.
  - rewrite (f32_negative_case x Hx), (f32_nonneg_case y Hy).
    pose proof (f32_abs_nonneg (- x)) as H1.
    pose proof (f32_abs_nonneg y Hy) as H2. lra.
  - lra.
  - rewrite (f32_nonneg_case x Hx), (f32_nonneg_case y Hy).
    apply f32_abs_monotone; assumption.
Qed.

(** The rounding error, for a value of magnitude at most [2 ^ (L - 149)]:
    half a unit in the last place of the binade below [2 ^ (L - 149)]. *)
Lemma f32_grid_error (a : Q) (L : Z) :
  (0 <= a)%Q -> 23 <= L ->
  (a * inject_Z (2 ^ 149) <= inject_Z (2 ^ L))%Q ->
  (a * inject_Z (2 ^ 149) - inject_Z (2 ^ (L - 23)) * (1 # 2)
     <= inject_Z (f32_grid a))%Q /\
  (inject_Z (f32_grid a)
     <= a * inject_Z (2 ^ 149) + inject_Z (2 ^ (L - 23)) * (1 # 2))%Q.
Proof.
  intros Ha HL Hbound.
  pose proof (scale_nonneg a Ha) as Ht.
  set (t := (a * inject_Z (2 ^ 149))%Q) in *.
  assert (Hsh : f32_shift a <= L - 23).
  { unfold f32_shift. fold t.
    assert (HN : Qfloor t <= 2 ^ L).
    { rewrite <- (Qfloor_Z (2 ^ L)). apply Qfloor_resp_le. exact Hbound. }
    pose proof (Z.log2_le_mono _ _ HN) as Hlog.
    rewrite Z.log2_pow2 in Hlog by lia. lia. }
  pose proof (f32_shift_nonneg a) as Hsh0.
  assert (HS : (inject_Z (2 ^ f32_shift a) <= inject_Z (2 ^ (L - 23)))%Q)
    by (rewrite <- Zle_Qle; apply Z.pow_le_mono_r; lia).
  pose proof (pow2_pos (f32_shift a) Hsh0) as HSpos.
  unfold f32_grid. fold t. rewrite inject_Z_mult.
  set (S := inject_Z (2 ^ f32_shift a)) in *.
  destruct (round_half_even_error (t / S)) as [Hlo Hhi].
  set (m := inject_Z (round_half_even (t / S))) in *.
  assert (Hdiv : (t / S * S == t)%Q) by (field; lra).
  split.
  - apply Qle_trans with ((t / S - (1 # 2)) * S)%Q.
    + setoid_replace ((t / S - (1 # 2)) * S)%Q with (t - S * (1 # 2))%Q
        by (rewrite <- Hdiv at 2; ring).
      lra.
    + apply Qmult_le_compat_r; lra.
  - apply Qle_trans with ((t / S + (1 # 2)) * S)%Q.
    + apply Qmult_le_compat_r; lra.
    + setoid_replace ((t / S + (1 # 2)) * S)%Q with (t + S * (1 # 2))%Q
        by (rewrite <- Hdiv at 2; ring).
      lra.
Qed.

Lemma f32_abs_error (a : Q) (L : Z) :
  (0 <= a)%Q -> 23 <= L ->
  (a * inject_Z (2 ^ 149) <= inject_Z (2 ^ L))%Q ->
  (a - inject_Z (2 ^ (L - 23)) * (1 # 2) / inject_Z (2 ^ 149) <= f32_abs a)%Q /\
  (f32_abs a <= a + inject_Z (2 ^ (L - 23)) * (1 # 2) / inject_Z (2 ^ 149))%Q.
Proof.
  intros Ha HL Hbound.
  destruct (f32_grid_error a L Ha HL Hbound) as [Hlo Hhi].
  pose proof (pow2_pos 149 ltac:(lia)) as HP.
  unfold f32_abs.
  set (P := inject_Z (2 ^ 149)) in *.
  set (e := (inject_Z (2 ^ (L - 23)) * (1 # 2))%Q) in *.
  set (g := inject_Z (f32_grid a)) in *.
  split.
  - apply Qle_shift_div_l; [exact HP|].
    setoid_replace ((a - e / P) * P)%Q with (a * P - e)%Q by (field; lra).
    exact Hlo.
  - apply Qle_shift_div_r; [exact HP|].
    setoid_replace ((a + e / P) * P)%Q with (a * P + e)%Q by (field; lra).
    exact Hhi.
Qed.

Lemma f32_error (x : Q) (L : Z) :
  23 <= L ->
  (- inject_Z (2 ^ L) <= x * inject_Z (2 ^ 149))%Q ->
  (x * inject_Z (2 ^ 149) <= inject_Z (2 ^ L))%Q ->
  (x - inject_Z (2 ^ (L - 23)) * (1 # 2) / inject_Z (2 ^ 149) <= f32 x)%Q /\
  (f32 x <= x + inject_Z (2 ^ (L - 23)) * (1 # 2) / inject_Z (2 ^ 149))%Q.
Proof.
  intros HL Hlo Hhi.
  destruct (Qlt_le_dec x 0) as [Hx|Hx].
  - rewrite (f32_negative_case x Hx).
    destruct (f32_abs_error (- x) L) as [H1 H2]; [lra|exact HL| |].
    + setoid_replace (- x * inject_Z (2 ^ 149))%Q
        with (- (x * inject_Z (2 ^ 149)))%Q by ring.
      lra.
    + split; lra.
  - rewrite (f32_nonneg_case x Hx). apply f32_abs_error; assumption.
Qed.

Lemma f32_error_upto (k : Z) (x bound err : Q) :
  0 <= k ->
  (bound * inject_Z (2 ^ 149) == inject_Z (2 ^ (k + 149)))%Q ->
  (err == inject_Z (2 ^ (k + 149 - 23)) * (1 # 2) / inject_Z (2 ^ 149))%Q ->
  (- bound <= x <= bound)%Q ->
  (x - err <= f32 x <= x + err)%Q.
Proof.
  intros Hk Hbound Herr [Hlo Hhi].
  pose proof (pow2_pos 149 ltac:(lia)) as HP.
  destruct (f32_error x (k + 149)) as [H1 H2]; [lia| | |].
  - rewrite <- Hbound.
    setoid_replace (- (bound * inject_Z (2 ^ 149)))%Q
      with (- bound * inject_Z (2 ^ 149))%Q by ring.
    apply Qmult_le_compat_r; [exact Hlo|]. apply Qlt_le_weak. exact HP.
  - rewrite <- Hbound.
    apply Qmult_le_compat_r; [exact Hhi|]. apply Qlt_le_weak. exact HP.
  - rewrite Herr. split; assumption.
Qed.

(** The error for magnitudes up to 1, up to 2 and up to 256. *)
Lemma f32_error_1 (x : Q) :
  (-1 <= x <= 1)%Q -> (x - (1 # 16777216) <= f32 x <= x + (1 # 16777216))%Q.
Proof.
  intros H. apply (f32_error_upto 0 x 1); [lia| | |exact H];
    vm_compute; reflexivity.
Qed.

Lemma f32_error_2 (x : Q) :
  (-2 <= x <= 2)%Q -> (x - (1 # 8388608) <= f32 x <= x + (1 # 8388608))%Q.
Proof.
  intros H. apply (f32_error_upto 1 x 2); [lia| | |exact H];
    vm_compute; reflexivity.
Qed.

Lemma f32_error_256 (x : Q) :
  (-256 <= x <= 256)%Q -> (x - (1 # 65536) <= f32 x <= x + (1 # 65536))%Q.
Proof.
  intros H. apply (f32_error_upto 8 x 256); [lia| | |exact H];
    vm_compute; reflexivity.
Qed.

(** Values that float32 holds exactly. *)
Lemma f32_exact_values :
  (f32 (-1) == -1)%Q /\ (f32 0 == 0)%Q /\ (f32 1 == 1)%Q /\ (f32 2 == 2)%Q /\
  (f32 255 == 255)%Q.
Proof. repeat split; vm_compute; reflexivity. Qed.

(** Values that float32 does not hold: 1/10 and 1/3 go to the nearest
    24-bit significand, -1/7 likewise on the negative side; between
    2 ^ 24 and 2 ^ 25 only the even integers exist and a tie goes to the
    even significand; half the smallest subnormal is a tie that goes
    to 0. *)
Lemma f32_rounded_values :
  (f32 (1 # 10) == 13421773 # 134217728)%Q /\
  (f32 (1 # 3) == 11184811 # 33554432)%Q /\
  (f32 (-1 # 7) == -9586981 # 67108864)%Q /\
  (f32 16777217 == 16777216)%Q /\
  (f32 16777219 == 16777220)%Q /\
  (f32 (Qmake 1 (2 ^ 150)) == 0)%Q /\
  (f32 (Qmake 3 (2 ^ 150)) == Qmake 1 (2 ^ 148))%Q.
Proof. repeat split; vm_compute; reflexivity. Qed.

(** ** The conversion to pixels *)

Lemma clamp_bounds (v : Q) : (-1 <= clamp (-1) 1 v <= 1)%Q.
Proof.
  unfold clamp. split.
  - apply Q.min_glb; [apply Q.le_max_r | discriminate].
  - apply Q.le_min_r.
Qed.

Lemma clamp_inside (v : Q) : (-1 <= v <= 1)%Q -> (clamp (-1) 1 v == v)%Q.
Proof.
  intros [Hlo Hhi]. unfold clamp.
  rewrite Q.max_l by exact Hlo. apply Q.min_l. exact Hhi.
Qed.

Lemma clamp_low (v : Q) : (v <= -1)%Q -> (clamp (-1) 1 v == -1)%Q.
Proof.
  intros H. unfold clamp. rewrite Q.max_r by exact H.
  apply Q.min_l. discriminate.
Qed.

Lemma clamp_high (v : Q) : (1 <= v)%Q -> (clamp (-1) 1 v == 1)%Q.
Proof.
  intros H. unfold clamp. apply Q.min_r.
  apply Qle_trans with v; [exact H | apply Q.le_max_l].
Qed.

Lemma Qtrunc_nonneg (q : Q) : (0 <= q)%Q -> Qtrunc q = Qfloor q.
Proof.
  intros H. unfold Qtrunc. apply Qle_bool_iff in H. now rewrite H.
Qed.

(** On [0, 255] the byte is the floor. *)
Lemma to_byte_in_range (q : Q) :
  (0 <= q <= 255)%Q -> to_byte q = Qfloor q /\ 0 <= Qfloor q <= 255.
Proof.
  intros [Hlo Hhi]. unfold to_byte. rewrite Qtrunc_nonneg by exact Hlo.
  assert (H0 : 0 <= Qfloor q) by (apply (Qfloor_resp_le 0 q); exact Hlo).
  assert (H255 : Qfloor q <= 255) by (apply (Qfloor_resp_le q 255); exact Hhi).
  split; [apply Z.mod_small|]; lia.
Qed.

(** The float32 value that becomes the byte lies in [0, 255]: every
    operation and its rounding keeps the order, and 0, 2 and 255 are
    float32 values. *)
Lemma float_pixel_range (v : Q) : (0 <= float_pixel v <= 255)%Q.
Proof.
  unfold float_pixel.
  destruct f32_exact_values as (Hm1 & H0 & H1 & H2 & H255).
  destruct (clamp_bounds v) as [Hlo Hhi].
  pose proof (f32_monotone _ _ Hlo) as Hclo. rewrite Hm1 in Hclo.
  pose proof (f32_monotone _ _ Hhi) as Hchi. rewrite H1 in Hchi.
  set (c := f32 (clamp (-1) 1 v)) in *.
  assert (Hslo : (0 <= f32 (c + 1))%Q)
    by (rewrite <- H0; apply f32_monotone; lra).
  assert (Hshi : (f32 (c + 1) <= 2)%Q)
    by (rewrite <- H2; apply f32_monotone; lra).
  set (sum := f32 (c + 1)) in *.
  split.
  - rewrite <- H0. apply f32_monotone. lra.
  - rewrite <- H255. apply f32_monotone. lra.
Qed.

Lemma float_pixel_comp (v w : Q) :
  (clamp (-1) 1 v == clamp (-1) 1 w)%Q -> (float_pixel v == float_pixel w)%Q.
Proof.
  intros H. unfold float_pixel.
  apply f32_comp. apply Qmult_comp; [|reflexivity].
  apply f32_comp. apply Qplus_comp; [|reflexivity].
  apply f32_comp. exact H.
Qed.

Lemma float_pixel_monotone (v w : Q) :
  (v <= w)%Q -> (float_pixel v <= float_pixel w)%Q.
Proof.
  intros H. unfold float_pixel.
  assert (Hc : (clamp (-1) 1 v <= clamp (-1) 1 w)%Q)
    by (unfold clamp; apply Q.min_le_compat_r, Q.max_le_compat_r; exact H).
  pose proof (f32_monotone _ _ Hc) as H1.
  assert (H2 : (f32 (f32 (clamp (-1) 1 v) + 1) <= f32 (f32 (clamp (-1) 1 w) + 1))%Q)
    by (apply f32_monotone; lra).
  apply f32_monotone. lra.
Qed.

Lemma display_floor (v : Q) : display v = Qfloor (float_pixel v).
Proof.
  unfold display. apply to_byte_in_range, float_pixel_range.
Qed.

Lemma display_range (v : Q) : 0 <= display v <= 255.
Proof.
  rewrite display_floor. apply to_byte_in_range, float_pixel_range.
Qed.

Lemma display_in_range (v : Q) :
  (-1 <= v <= 1)%Q ->
  display v = Qfloor (f32 (f32 (f32 v + 1) * (255 # 2))).
Proof.
  intros H. rewrite display_floor. apply Qfloor_comp. unfold float_pixel.
  apply f32_comp. apply Qmult_comp; [|reflexivity].
  apply f32_comp. apply Qplus_comp; [|reflexivity].
  apply f32_comp. apply clamp_inside. exact H.
Qed.

Lemma display_saturates_low (v : Q) : (v <= -1)%Q -> display v = 0.
Proof.
  intros H. rewrite display_floor.
  transitivity (Qfloor (float_pixel (-1))); [|vm_compute; reflexivity].
  apply Qfloor_comp, float_pixel_comp.
  rewrite (clamp_low v H). symmetry. apply clamp_low. lra.
Qed.

Lemma display_saturates_high (v : Q) : (1 <= v)%Q -> display v = 255.
Proof.
  intros H. rewrite display_floor.
  transitivity (Qfloor (float_pixel 1)); [|vm_compute; reflexivity].
  apply Qfloor_comp, float_pixel_comp.
  rewrite (clamp_high v H). symmetry. apply clamp_high. lra.
Qed.

(** The two tensor lines are [display] on every value, then the
    permutation. *)
Lemma frame_to_uint8_display (frame : Frame) :
  frame_to_uint8 frame = permute_1_2_0 0 (map3 display frame).
Proof.
  unfold frame_to_uint8, map3. f_equal.
  rewrite !map_map. apply map_ext. intros channel.
  rewrite !map_map. apply map_ext. intros row.
  rewrite !map_map. reflexivity.
Qed.

Lemma nth_map_in_range {A B : Type} (f : A -> B) (l : list A) (i : nat) (d : A) (e : B) :
  (i < length l)%nat -> nth i (map f l) e = f (nth i l d).
Proof.
  intros H. rewrite (nth_indep _ e (f d)) by (rewrite length_map; lia).
  apply map_nth.
Qed.

Section Permute.

Context {A : Type}.

Lemma nth_map_seq (B : Type) (f : nat -> B) (n i : nat) (d : B) :
  (i < n)%nat -> nth i (map f (seq 0 n)) d = f i.
Proof.
  intros H. rewrite (nth_indep _ d (f 0%nat)) by (rewrite length_map, length_seq; lia).
  rewrite map_nth, seq_nth by lia. reflexivity.
Qed.

(** Indexing [t.permute(1, 2, 0)]. *)
Lemma permute_1_2_0_nth (d : A) (t : list (list (list A))) (c h w : nat) :
  (c < length t)%nat ->
  (h < length (hd [] t))%nat -> (w < length (hd [] (hd [] t)))%nat ->
  nth c (nth w (nth h (permute_1_2_0 d t) []) []) d =
  nth w (nth h (nth c t []) []) d.
Proof.
  intros Hc Hh Hw. unfold permute_1_2_0.
  rewrite nth_map_seq by exact Hh.
  rewrite nth_map_seq by exact Hw.
  rewrite (nth_map_in_range _ t c [] d) by exact Hc. reflexivity.
Qed.

End Permute.

Lemma hd_map {A B} (f : A -> B) (l : list A) (d : A) :
  hd (f d) (map f l) = f (hd d l).
Proof. destruct l; reflexivity. Qed.

(** The image holds at [h][w][c] the pixel of the frame's value at
    [c][h][w]. *)
Lemma frame_to_uint8_nth (frame : Frame) (c h w : nat) :
  (c < length frame)%nat ->
  (h < length (hd [] frame))%nat -> (w < length (hd [] (hd [] frame)))%nat ->
  (h < length (nth c frame []))%nat ->
  (w < length (nth h (nth c frame []) []))%nat ->
  nth c (nth w (nth h (frame_to_uint8 frame) []) []) 0 =
  display (nth w (nth h (nth c frame []) []) 0%Q).
Proof.
  intros Hc Hh Hw Hh' Hw'. rewrite frame_to_uint8_display. unfold map3.
  rewrite permute_1_2_0_nth.
  - rewrite (nth_map_in_range (map (map display)) frame c [] []) by exact Hc.
    rewrite (nth_map_in_range (map display) _ h [] []) by exact Hh'.
    rewrite (nth_map_in_range display _ w 0%Q 0) by exact Hw'.
    reflexivity.
  - rewrite length_map. exact Hc.
  - change (@nil (list Z)) with (map (map display) []) at 1.
    rewrite hd_map, length_map. exact Hh.
  - change (@nil (list Z)) with (map (map display) []) at 1.
    rewrite hd_map.
    change (@nil Z) with (map display []) at 1.
    rewrite hd_map, length_map. exact Hw.
Qed.


(** ** Slices *)

Section Slices.

Context {A : Type}.

Lemma skipn_length_app (l r : list A) : skipn (length l) (l ++ r) = r.
Proof.
  induction l as [|x l IH]; simpl; auto.
Qed.

(** A slice [xs[start:]] is a suffix of [xs]. *)
Lemma slice_from_suffix (start : Z) (xs : list A) :
  exists older, xs = older ++ slice_from start xs.
Proof.
  unfold slice_from.
  eexists. symmetry. apply firstn_skipn.
Qed.

(** [xs[-w:]] with [1 <= w <= len(xs)] is the last [w] elements. *)
Lemma slice_from_last (w : Z) (xs : list A) :
  1 <= w <= Z.of_nat (length xs) ->
  slice_from (- w) xs = skipn (length xs - Z.to_nat w) xs /\
  Z.of_nat (length (slice_from (- w) xs)) = w.
Proof.
  intros Hw. unfold slice_from.
  destruct (Z.ltb_spec (- w) 0) as [_|]; [|lia].
  replace (Z.to_nat (Z.max 0 (- w + Z.of_nat (length xs))))
    with (length xs - Z.to_nat w)%nat by lia.
  split; [reflexivity|]. rewrite length_skipn. lia.
Qed.

(** [xs[-w:]] with [w > len(xs)] is all of [xs]. *)
Lemma slice_from_underfilled (w : Z) (xs : list A) :
  Z.of_nat (length xs) < w -> slice_from (- w) xs = xs.
Proof.
  intros Hw. unfold slice_from.
  destruct (Z.ltb_spec (- w) 0) as [_|]; [|lia].
  replace (Z.to_nat (Z.max 0 (- w + Z.of_nat (length xs)))) with 0%nat by lia.
  reflexivity.
Qed.

(** [xs[-0:]] is [xs[0:]]: all of [xs]. *)
Lemma slice_from_minus_zero (xs : list A) : slice_from (- 0) xs = xs.
Proof.
  unfold slice_from. cbn [Z.opp Z.ltb Z.compare].
  replace (Z.to_nat (Z.min 0 (Z.of_nat (length xs)))) with 0%nat by lia.
  reflexivity.
Qed.

Lemma slice_from_nil (start : Z) : slice_from start (@nil A) = [].
Proof. unfold slice_from. apply skipn_nil. Qed.

Lemma index_last_snoc (front : list A) (x : A) : index_last (front ++ [x]) = Ok x.
Proof. unfold index_last. rewrite rev_app_distr. reflexivity. Qed.

Lemma index_last_ok (xs : list A) (x : A) :
  index_last xs = Ok x -> exists front, xs = front ++ [x].
Proof.
  unfold index_last. destruct (rev xs) as [|y ys] eqn:E; [discriminate|].
  intros H. injection H as ->.
  exists (rev ys). rewrite <- (rev_involutive xs), E. reflexivity.
Qed.

(** The last element of a sequence is the last element of each of its
    non-empty suffixes. *)
Lemma index_last_suffix (older suffix : list A) :
  suffix <> [] -> index_last (older ++ suffix) = index_last suffix.
Proof.
  intros Hne. destruct (rev suffix) as [|y ys] eqn:E.
  - apply (f_equal (@rev A)) in E. rewrite rev_involutive in E. contradiction.
  - unfold index_last. rewrite rev_app_distr, E. reflexivity.
Qed.

(** The length of [xs[-h:]] for every integer [h]. *)
Lemma slice_from_neg_length (h : Z) (xs : list A) :
  Z.of_nat (length (slice_from (- h) xs)) =
  if 0 <? h then Z.min h (Z.of_nat (length xs))
  else Z.max 0 (Z.of_nat (length xs) + h).
Proof.
  unfold slice_from. rewrite length_skipn.
  destruct (Z.ltb_spec 0 h), (Z.ltb_spec (- h) 0); lia.
Qed.

(** [xs[-w:]] for [w <= 0] is [xs[|w|:]]. *)
Lemma slice_from_nonpositive (w : Z) (xs : list A) :
  w <= 0 -> slice_from (- w) xs = skipn (Z.to_nat (- w)) xs.
Proof.
  intros Hw. unfold slice_from.
  destruct (Z.ltb_spec (- w) 0) as [|_]; [lia|].
  destruct (Z.le_gt_cases (- w) (Z.of_nat (length xs))) as [Hle|Hgt].
  - rewrite Z.min_l by exact Hle. reflexivity.
  - rewrite Z.min_r by lia. rewrite Nat2Z.id.
    rewrite skipn_all, skipn_all2 by lia. reflexivity.
Qed.

(** [xs[-h:]] with [h >= 0] keeps the last element of a non-empty [xs]. *)
Lemma index_last_slice_from (h : Z) (xs : list A) (x : A) :
  0 <= h -> index_last xs = Ok x -> index_last (slice_from (- h) xs) = Ok x.
Proof.
  intros Hh Hlast. destruct (index_last_ok xs x Hlast) as [front ->].
  destruct (slice_from_suffix (- h) (front ++ [x])) as [older Holder].
  assert (Hne : slice_from (- h) (front ++ [x]) <> []).
  { intros Hnil. apply (f_equal (fun l => Z.of_nat (length l))) in Hnil.
    rewrite slice_from_neg_length, length_app in Hnil. cbn [length] in Hnil.
    destruct (Z.ltb_spec 0 h); lia. }
  rewrite <- (index_last_suffix older _ Hne), <- Holder. apply index_last_snoc.
Qed.

End Slices.

(** ** The step *)

Section StepProperties.

Context {VideoIndices Latents ActionLatent : Type}.

Local Abbreviation Session := (GenieInferenceSession VideoIndices Latents ActionLatent).
Local Abbreviation St := (State VideoIndices Latents ActionLatent).
Local Abbreviation Entry := (Logged VideoIndices Latents ActionLatent).

(** Replacing the history by itself changes nothing. *)
Lemma with_generated_frames_same (s : Session) :
  with_generated_frames s (generated_frames s) = s.
Proof. destruct s; reflexivity. Qed.

Lemma history_extended_refl h : history_extended h h.
Proof. destruct h; simpl; auto. exists []. now rewrite app_nil_r. Qed.

Lemma history_extended_trans h1 h2 h3 :
  history_extended h1 h2 -> history_extended h2 h3 -> history_extended h1 h3.
Proof.
  destruct h1, h2, h3; simpl; try tauto.
  intros [a ->] [b ->]. exists (a ++ b). now rewrite app_assoc.
Qed.

Lemma history_extended_length (st st' : St) :
  history_extended (history st) (history st') ->
  (history_length st <= history_length st')%nat.
Proof.
  unfold history_length.
  destruct (history st), (history st'); simpl; try tauto; try lia.
  intros [added ->]. rewrite length_app. lia.
Qed.

Ltac unfold_step :=
  unfold step, append_frames, action_conditioning, bind, invoke,
    lift, get_self, set_generated_frames, raise, ret, py_mod.

Ltac step_simpl :=
  cbn [fst snd session calls outbox stdout generated_frames
       with_generated_frames is_ok negb vt lam dynamics device context_window
       temperature prediction_horizon amp].

(** Before [set_initial_context], [step] raises and touches nothing. *)
Lemma step_uninitialized (st : St) (a : Z) :
  history st = None ->
  step a st = (Raise (RuntimeError "Call set_initial_context first"), st).
Proof.
  unfold history. intros H. unfold_step. rewrite H. reflexivity.
Qed.

Lemma step_uninitialized_calls (st : St) (a : Z) :
  history st = None -> calls_of (step a) st = [].
Proof.
  intros H. unfold calls_of. rewrite (step_uninitialized st a H).
  apply skipn_all.
Qed.

(** [step] follows one of these ways, changes nothing of the state but the
    history and the log, and only adds to the log. *)
Lemma step_inversion (st : St) (a : Z) :
  let r := fst (step a st) in
  let st' := snd (step a st) in
  step_path (session st) a r (history st') (calls_of (step a) st) /\
  session st' = with_generated_frames (session st) (history st') /\
  calls st' = calls st ++ calls_of (step a) st /\
  outbox st' = outbox st /\ stdout st' = stdout st.
Proof.
  unfold calls_of, history. unfold_step. step_simpl.
  destruct (generated_frames (session st)) as [frames|] eqn:Hgf; step_simpl.
  2:{ rewrite skipn_all, app_nil_r, with_generated_frames_same, Hgf.
      repeat split. now apply path_uninitialized. }
  assert (Hsame : with_generated_frames (session st) (Some frames) = session st)
    by (rewrite <- Hgf; apply with_generated_frames_same).
  destruct (tokenize _ _) as [idx|e] eqn:Htok; step_simpl.
  2:{ rewrite ?Hgf, skipn_length_app, Hsame. repeat split.
      now apply path_tokenize_raises. }
  destruct (vt_get_latents_from_indices _ _ _) as [lat|e] eqn:Hlat; step_simpl.
  2:{ rewrite ?Hgf, <- app_assoc, skipn_length_app, Hsame.
      repeat split. eapply path_latents_raise; eauto. }
  destruct (Z.eqb_spec (n_actions_of (session st)) 0) as [Hz|Hnz]; step_simpl.
  { rewrite ?Hgf, <- app_assoc, skipn_length_app, Hsame.
    repeat split. eapply path_zero_codebook; eauto. }
  unfold n_actions_of in *.
  destruct (lam (session st)) as [l|] eqn:Hlam; step_simpl.
  - destruct (lam_get_latents_from_indices _ _) as [latent|e] eqn:Hact; step_simpl.
    2:{ rewrite ?Hgf, <- !app_assoc, skipn_length_app, Hsame.
        repeat split. eapply path_action_raises; eauto. }
    assert (Hcond : conditioning_of (session st) a (Some latent)
                      [logged (CallActionLatent (a mod codebook_size l)) false])
      by (eapply conditioning_looked_up; eauto).
    destruct (forward_inference _ _ _ _ _ _ _) as [nl|e] eqn:Hfi; step_simpl.
    2:{ rewrite ?Hgf, <- !app_assoc, skipn_length_app, Hsame. repeat split.
        refine (path_after_conditioning _ _ _ _ _ _ _ _ _ _ Hgf Htok Hlat Hcond _). now apply path_predict_raises. }
    destruct (detokenize _ _) as [nf|e] eqn:Hdet; step_simpl.
    2:{ rewrite ?Hgf, <- !app_assoc, skipn_length_app, Hsame. repeat split.
        refine (path_after_conditioning _ _ _ _ _ _ _ _ _ _ Hgf Htok Hlat Hcond _).
        eapply path_detokenize_raises; eauto. }
    rewrite Hgf. step_simpl.
    destruct (index_last nf) as [frame|e] eqn:Hlast; step_simpl;
      rewrite <- !app_assoc, skipn_length_app; repeat split.
    + refine (path_after_conditioning _ _ _ _ _ _ _ _ _ _ Hgf Htok Hlat Hcond _). eapply path_returns; eauto.
    + unfold index_last in Hlast. destruct nf as [|f nf].
      * injection Hlast as <-. rewrite slice_from_nil, app_nil_r.
        refine (path_after_conditioning _ _ _ _ _ _ _ _ _ _ Hgf Htok Hlat Hcond _). eapply path_no_frame; eauto.
      * exfalso. destruct (rev (f :: nf)) eqn:E; [|discriminate].
        apply (f_equal (@length _)) in E. rewrite length_rev in E. discriminate.
  - assert (Hcond : conditioning_of (session st) a None [])
      by (now apply conditioning_absent).
    destruct (forward_inference _ _ _ _ _ _ _) as [nl|e] eqn:Hfi; step_simpl.
    2:{ rewrite ?Hgf, <- !app_assoc, skipn_length_app, Hsame. repeat split.
        refine (path_after_conditioning _ _ _ _ _ _ _ _ _ _ Hgf Htok Hlat Hcond _). now apply path_predict_raises. }
    destruct (detokenize _ _) as [nf|e] eqn:Hdet; step_simpl.
    2:{ rewrite ?Hgf, <- !app_assoc, skipn_length_app, Hsame. repeat split.
        refine (path_after_conditioning _ _ _ _ _ _ _ _ _ _ Hgf Htok Hlat Hcond _).
        eapply path_detokenize_raises; eauto. }
    rewrite Hgf. step_simpl.
    destruct (index_last nf) as [frame|e] eqn:Hlast; step_simpl;
      rewrite <- !app_assoc, skipn_length_app; repeat split.
    + refine (path_after_conditioning _ _ _ _ _ _ _ _ _ _ Hgf Htok Hlat Hcond _). eapply path_returns; eauto.
    + unfold index_last in Hlast. destruct nf as [|f nf].
      * injection Hlast as <-. rewrite slice_from_nil, app_nil_r.
        refine (path_after_conditioning _ _ _ _ _ _ _ _ _ _ Hgf Htok Hlat Hcond _). eapply path_no_frame; eauto.
      * exfalso. destruct (rev (f :: nf)) eqn:E; [|discriminate].
        apply (f_equal (@length _)) in E. rewrite length_rev in E. discriminate.
Qed.

(** Splits a proof about [step a st] into the ways through [step]. *)
Ltac step_cases st a :=
  let Hp := fresh "Hpath" in
  let Hs := fresh "Hsession" in
  let Hc := fresh "Hcalls" in
  let Ho := fresh "Houtbox" in
  let Hout := fresh "Hstdout" in
  destruct (step_inversion st a) as (Hp & Hs & Hc & Ho & Hout);
  cbv zeta in Hp, Hs, Hc, Ho, Hout.

Lemma prediction_path_history (s : Session) frames lat cond r h log :
  prediction_path s frames lat cond r h log ->
  history_extended (Some frames) h /\
  (forall e, r = Raise e -> h = Some frames) /\
  (forall entry, In entry log -> raised entry = true -> exists e, r = Raise e) /\
  (forall cl hz n c t b, In (logged (CallForwardInference cl hz n c t) b) log ->
     cl = lat /\ hz = prediction_horizon s /\ n = 10 /\ c = cond /\ t = temperature s) /\
  (forall id b, ~ In (logged (CallActionLatent id) b) log) /\
  (forall ctx b, ~ In (logged (CallTokenize ctx) b) log).
Proof.
  intros Hp. inversion Hp; subst; cbn [history_extended];
    (split; [first [exists []; now rewrite app_nil_r | eexists; reflexivity]|]);
    (split; [intros ? ?; first [reflexivity | discriminate]|]);
    (split; [intros entry Hin Hr; cbn [In] in Hin;
             repeat (destruct Hin as [<-|Hin]; [try discriminate; eauto|]); tauto|]);
    (split; [intros cl hz n c t b Hin; cbn [In] in Hin;
             repeat (destruct Hin as [Heq|Hin];
                     [try discriminate; injection Heq; intros; subst; auto|]); tauto|]);
    split; intros ? ? Hin; cbn [In] in Hin;
      repeat (destruct Hin as [Heq|Hin]; [discriminate|]); tauto.
Qed.

(** A step only appends to the history. *)
Lemma step_history_extended (st : St) (a : Z) :
  history_extended (history st) (history (snd (step a st))).
Proof.
  step_cases st a. unfold history at 1.
  inversion Hpath as [Hgf|frames e Hgf|frames idx e Hgf|frames idx lat Hgf
                     |frames idx lat l e Hgf
                     |frames idx lat cond cc r h rest Hgf Htok Hlat Hcond Hpred];
    rewrite Hgf; cbn [history_extended]; auto;
    try (exists []; now rewrite app_nil_r).
  now apply prediction_path_history in Hpred.
Qed.

(** A step that raises leaves the history as it was. *)
Lemma step_raise_keeps_history (st : St) (a : Z) (e : Exception) :
  fst (step a st) = Raise e -> history (snd (step a st)) = history st.
Proof.
  step_cases st a. intros He. unfold history at 2.
  inversion Hpath as [Hgf|frames e' Hgf|frames idx e' Hgf|frames idx lat Hgf
                     |frames idx lat l e' Hgf
                     |frames idx lat cond cc r h rest Hgf Htok Hlat Hcond Hpred];
    rewrite Hgf; auto.
  apply prediction_path_history in Hpred.
  destruct Hpred as (_ & Hr & _). apply (Hr e). congruence.
Qed.

Lemma step_raise_keeps_session (st : St) (a : Z) (e : Exception) :
  fst (step a st) = Raise e -> session (snd (step a st)) = session st.
Proof.
  intros He. step_cases st a. rewrite Hsession.
  rewrite (step_raise_keeps_history st a e He). unfold history.
  apply with_generated_frames_same.
Qed.

(** The first call of a step on an initialized session is the tokenizer's,
    on the slice [generated_frames[:, -context_window:]]. *)
Lemma step_first_call (st : St) (a : Z) (frames : list Frame) :
  history st = Some frames ->
  exists r rest,
    calls_of (step a) st =
    logged (CallTokenize (slice_from (- context_window (session st)) frames)) r :: rest.
Proof.
  unfold history. intros H. step_cases st a.
  inversion Hpath; try congruence;
    match goal with
    | Hgf : generated_frames (session st) = Some _ |- _ =>
        rewrite H in Hgf; injection Hgf as <-
    end; eauto.
Qed.

(** What the dynamics model is given as context: the latents of the tokens
    of that slice. *)
Lemma step_forward_inference_call (st : St) (a : Z) (frames : list Frame)
    cl hz n c t b :
  history st = Some frames ->
  In (logged (CallForwardInference cl hz n c t) b) (calls_of (step a) st) ->
  (exists idx,
      tokenize (vt (session st))
               (slice_from (- context_window (session st)) frames) = Ok idx /\
      vt_get_latents_from_indices (vt (session st)) idx None = Ok cl) /\
  hz = prediction_horizon (session st) /\ n = 10 /\ t = temperature (session st).
Proof.
  unfold history. intros H Hin. step_cases st a.
  inversion Hpath as [Hgf|frames' e Hgf|frames' idx e Hgf|frames' idx lat Hgf
                     |frames' idx lat l e Hgf
                     |frames' idx lat cond cc r h rest Hgf Htok Hlat Hcond Hpred];
    try congruence;
    match goal with
    | Hlog : _ = calls_of (step a) st |- _ => rewrite <- Hlog in Hin
    end;
    cbn [In] in Hin;
    try (repeat (destruct Hin as [Heq|Hin]; [discriminate|]); tauto).
  rewrite H in Hgf; injection Hgf as <-.
  destruct Hin as [Heq|[Heq|Hin]]; try discriminate.
  apply in_app_or in Hin. destruct Hin as [Hin|Hin].
  - inversion Hcond; subst; cbn [In] in Hin;
      try (repeat (destruct Hin as [Heq|Hin]; [discriminate|])); tauto.
  - apply prediction_path_history in Hpred.
    destruct Hpred as (_ & _ & _ & Hfi & _).
    destruct (Hfi _ _ _ _ _ _ Hin) as (-> & -> & -> & -> & ->).
    split; [exists idx; auto | auto].
Qed.

(** The action ids that a step looks up. *)
Lemma step_action_call (st : St) (a : Z) id b :
  In (logged (CallActionLatent id) b) (calls_of (step a) st) ->
  exists l, lam (session st) = Some l /\ codebook_size l <> 0 /\
            id = a mod codebook_size l.
Proof.
  intros Hin. step_cases st a.
  inversion Hpath as [Hgf|frames' e Hgf|frames' idx e Hgf|frames' idx lat Hgf
                     |frames' idx lat l e Hgf Htok Hlat Hlam Hnz Hact
                     |frames' idx lat cond cc r h rest Hgf Htok Hlat Hcond Hpred];
    match goal with
    | Hlog : _ = calls_of (step a) st |- _ => rewrite <- Hlog in Hin
    end;
    cbn [In] in Hin.
  1-4: repeat (destruct Hin as [Heq|Hin]; [discriminate|]); tauto.
  - destruct Hin as [Heq|[Heq|[Heq|[]]]]; try discriminate.
    injection Heq as <- _. eauto.
  - destruct Hin as [Heq|[Heq|Hin]]; try discriminate.
    apply in_app_or in Hin. destruct Hin as [Hin|Hin].
    + inversion Hcond; subst; cbn [In] in Hin; [tauto|].
      destruct Hin as [Heq|[]]. injection Heq as <- _. eauto.
    + apply prediction_path_history in Hpred.
      destruct Hpred as (_ & _ & _ & _ & Hno & _). now apply Hno in Hin.
Qed.

(** A logged call that raised ends the step with an exception. *)
Lemma step_raised_entry (st : St) (a : Z) entry :
  In entry (calls_of (step a) st) -> raised entry = true ->
  exists e, fst (step a st) = Raise e.
Proof.
  intros Hin Hr. step_cases st a.
  inversion Hpath as [Hgf|frames' e Hgf|frames' idx e Hgf|frames' idx lat Hgf
                     |frames' idx lat l e Hgf
                     |frames' idx lat cond cc r h rest Hgf Htok Hlat Hcond Hpred];
    eauto.
  match goal with
  | Hlog : _ = calls_of (step a) st |- _ => rewrite <- Hlog in Hin
  end.
  destruct Hin as [<-|[<-|Hin]]; try discriminate.
  apply in_app_or in Hin. destruct Hin as [Hin|Hin].
  - inversion Hcond; subst; cbn [In] in Hin; [tauto|].
    destruct Hin as [<-|[]]. discriminate.
  - apply prediction_path_history in Hpred.
    destruct Hpred as (_ & _ & Hraised & _).
    destruct (Hraised _ Hin Hr) as [e He]. exists e. congruence.
Qed.

(** A step that returns an image: where the image and the new history come
    from. *)
Lemma step_ok (st : St) (a : Z) (img : Image) :
  fst (step a st) = Ok img ->
  exists frames next_latents next_frames frame,
    history st = Some frames /\
    In (logged (CallDetokenize next_latents) false) (calls_of (step a) st) /\
    detokenize (vt (session st)) next_latents = Ok next_frames /\
    index_last next_frames = Ok frame /\
    img = frame_to_uint8 frame /\
    history (snd (step a st)) =
    Some (frames ++ slice_from (- prediction_horizon (session st)) next_frames).
Proof.
  intros Hok. step_cases st a. rewrite Hok in Hpath.
  inversion Hpath as [| | | |
                     |frames idx lat cond cc r h rest Hgf Htok Hlat Hcond Hpred].
  subst. inversion Hpred as [| | |nl nf frame Hfi Hdet Hlast]. subst.
  exists frames, nl, nf, frame. repeat split; auto.
  cbn [In]. right; right. apply in_or_app. right. cbn [In]. auto.
Qed.

(** Why a step raises: a model raised, the codebook is empty, the decoder
    returned no frame, or the session has no context yet. *)
Lemma step_raise_cause (st : St) (a : Z) (e : Exception) :
  fst (step a st) = Raise e ->
  (exists entry, In entry (calls_of (step a) st) /\ raised entry = true) \/
  (e = ZeroDivisionError /\ n_actions_of (session st) = 0) \/
  (e = IndexError /\
   exists next_latents,
     In (logged (CallDetokenize next_latents) false) (calls_of (step a) st) /\
     detokenize (vt (session st)) next_latents = Ok []) \/
  history st = None.
Proof.
  intros He. step_cases st a. rewrite He in Hpath.
  inversion Hpath as [Hgf|frames e' Hgf|frames idx e' Hgf|frames idx lat Hgf
                     |frames idx lat l e' Hgf
                     |frames idx lat cond cc r h rest Hgf Htok Hlat Hcond Hpred];
    subst.
  - right; right; right. exact Hgf.
  - left. eexists. split; [left; reflexivity | reflexivity].
  - left. eexists. split; [right; left; reflexivity | reflexivity].
  - right; left. auto.
  - left. eexists. split; [right; right; left; reflexivity | reflexivity].
  - inversion Hpred as [e' Hfi|nl e' Hfi Hdet|nl Hfi Hdet|]; subst.
    + left. eexists.
      split; [right; right; apply in_or_app; right; left; reflexivity|reflexivity].
    + left. eexists.
      split; [right; right; apply in_or_app; right; right; left; reflexivity
             |reflexivity].
    + right; right; left. split; [reflexivity|]. exists nl. split; [|exact Hdet].
      right; right. apply in_or_app. right. right. left. reflexivity.
Qed.

(** *** Runs of several steps *)

Lemma steps_cons (st : St) (a : Z) (rest : list Z) :
  steps (a :: rest) st =
  match step a st with
  | (Ok frame, st1) =>
      match steps rest st1 with
      | (Ok frames, st2) => (Ok (frame :: frames), st2)
      | (Raise e, st2) => (Raise e, st2)
      end
  | (Raise e, st1) => (Raise e, st1)
  end.
Proof. reflexivity. Qed.

(** A run of steps keeps the configuration and only appends to the
    history. *)
Lemma steps_session (actions : list Z) (st : St) :
  session (snd (steps actions st)) =
  with_generated_frames (session st) (history (snd (steps actions st))) /\
  history_extended (history st) (history (snd (steps actions st))).
Proof.
  revert st. induction actions as [|a rest IH]; intros st.
  - cbn. unfold history. split.
    + symmetry. apply with_generated_frames_same.
    + apply history_extended_refl.
  - rewrite steps_cons.
    pose proof (step_history_extended st a) as Hext.
    destruct (step_inversion st a) as (_ & Hs & _).
    cbv zeta in Hs.
    destruct (step a st) as [[frame|e] st1]; cbn [fst snd] in *.
    + destruct (IH st1) as [IHs IHh].
      destruct (steps rest st1) as [[frames|e] st2]; cbn [fst snd] in *;
        (split; [rewrite IHs, Hs; reflexivity
                |eapply history_extended_trans; eauto]).
    + split; assumption.
Qed.

(** *** What [step] guarantees *)

(** C1 (as amended).  No call of [step], and no run of calls of [step], ever
    shortens the history; a call that returns, on a session with prediction
    horizon [H >= 1] whose decoder returned at least [H] frames, makes the
    history exactly [H] frames longer. *)
Theorem step_history_grows_by_horizon (st : St) :
  (forall a, (history_length st <= history_length (snd (step a st)))%nat) /\
  (forall actions,
      (history_length st <= history_length (snd (steps actions st)))%nat) /\
  (forall a img,
      fst (step a st) = Ok img ->
      1 <= prediction_horizon (session st) ->
      (forall next_latents next_frames,
          In (logged (CallDetokenize next_latents) false) (calls_of (step a) st) ->
          detokenize (vt (session st)) next_latents = Ok next_frames ->
          prediction_horizon (session st) <= Z.of_nat (length next_frames)) ->
      Z.of_nat (history_length (snd (step a st))) =
      Z.of_nat (history_length st) + prediction_horizon (session st)).
Proof.
  split; [|split].
  - intros a. apply history_extended_length, step_history_extended.
  - intros actions. apply history_extended_length, steps_session.
  - intros a img Hok Hh Hdecoder.
    destruct (step_ok st a img Hok)
      as (frames & nl & nf & frame & Hhist & Hin & Hdet & _ & _ & Hnew).
    specialize (Hdecoder nl nf Hin Hdet).
    unfold history_length. rewrite Hnew, Hhist, length_app.
    destruct (slice_from_last (prediction_horizon (session st)) nf) as [_ Hlen];
      lia.
Qed.

(** C2.  When a call to a model made by [step] raises, [step] raises, and
    the session (its history included), the messages sent and the lines
    printed are what they were: nothing is appended, no frame is returned. *)
Theorem step_gateway_failure_is_atomic (st : St) (a : Z) (entry : Entry) :
  In entry (calls_of (step a) st) ->
  raised entry = true ->
  exists e,
    fst (step a st) = Raise e /\
    session (snd (step a st)) = session st /\
    history (snd (step a st)) = history st /\
    outbox (snd (step a st)) = outbox st /\
    stdout (snd (step a st)) = stdout st.
Proof.
  intros Hin Hr.
  destruct (step_raised_entry st a entry Hin Hr) as [e He].
  exists e. split; [exact He|].
  split; [eapply step_raise_keeps_session; eauto|].
  split; [eapply step_raise_keeps_history; eauto|].
  step_cases st a. auto.
Qed.

(** C3.  With an action model of codebook size [n], [step (a + k * n)] does
    what [step a] does, call for call; the action latent is looked up at
    [a mod n] and at nothing else, which lies in [0, n) for a positive [n];
    and once the context is encoded the lookup is made whatever the
    size of [a]. *)
Theorem step_action_id_wraps (st : St) (a k : Z) (l : LatentActionModel ActionLatent) :
  lam (session st) = Some l ->
  step (a + k * codebook_size l) st = step a st /\
  (forall id b,
      In (logged (CallActionLatent id) b) (calls_of (step a) st) ->
      id = a mod codebook_size l /\
      (0 < codebook_size l -> 0 <= id < codebook_size l)) /\
  (forall frames idx lat,
      history st = Some frames ->
      tokenize (vt (session st))
               (slice_from (- context_window (session st)) frames) = Ok idx ->
      vt_get_latents_from_indices (vt (session st)) idx None = Ok lat ->
      codebook_size l <> 0 ->
      exists b,
        In (logged (CallActionLatent (a mod codebook_size l)) b)
           (calls_of (step a) st)).
Proof.
  intros Hlam. split; [|split].
  - unfold_step. step_simpl.
    destruct (generated_frames (session st)); [|reflexivity].
    destruct (tokenize _ _); step_simpl; [|reflexivity].
    destruct (vt_get_latents_from_indices _ _ _); step_simpl; [|reflexivity].
    unfold n_actions_of. rewrite Hlam.
    destruct (Z.eqb_spec (codebook_size l) 0); [reflexivity|].
    step_simpl. rewrite Z_mod_plus_full. reflexivity.
  - intros id b Hin.
    destruct (step_action_call st a id b Hin) as (l' & Hl' & Hnz & ->).
    rewrite Hlam in Hl'. injection Hl' as <-.
    split; [reflexivity|]. intros Hpos. apply Z.mod_pos_bound. exact Hpos.
  - intros frames idx lat Hhist Htok Hlat Hnz. unfold history in Hhist.
    step_cases st a.
    inversion Hpath as [Hgf|frames' e Hgf Htok'|frames' idx' e Hgf Htok' Hlat'
                       |frames' idx' lat' Hgf Htok' Hlat' Hzero
                       |frames' idx' lat' l' e Hgf Htok' Hlat' Hlam' Hnz' Hact
                       |frames' idx' lat' cond cc r h rest Hgf Htok' Hlat' Hcond Hpred];
      try congruence;
      rewrite Hhist in Hgf; injection Hgf as <-; rewrite Htok in Htok';
      try discriminate; injection Htok' as <-; try congruence.
    + unfold n_actions_of in Hzero. rewrite Hlam in Hzero. contradiction.
    + rewrite Hlam in Hlam'. injection Hlam' as <-.
      exists true. right; right; left. reflexivity.
    + inversion Hcond as [Hnone|l' latent Hlam' Hnz' Hact]; subst; [congruence|].
      rewrite Hlam in Hlam'. injection Hlam' as <-.
      exists false. right; right; left. reflexivity.
Qed.

(** C5.  Before [set_initial_context], [step] raises the session's
    [RuntimeError]; the state is the one before the call: no history, no
    call to any model, nothing sent. *)
Theorem step_before_initialize_raises (st : St) (a : Z) :
  history st = None ->
  step a st = (Raise (RuntimeError "Call set_initial_context first"), st) /\
  calls_of (step a) st = [] /\
  history (snd (step a st)) = None /\
  history_length (snd (step a st)) = 0%nat.
Proof.
  intros H. pose proof (step_uninitialized st a H) as Hstep.
  unfold calls_of, history_length. rewrite Hstep. cbn [snd].
  rewrite skipn_all, H. auto.
Qed.

(** C6.  On a session with window [W >= 1] whose history holds at least [W]
    frames, after any run of calls of [step] (all of which returned, or
    not), the next call gives the tokenizer the last [W] frames of the
    history, in their order, and the dynamics model the latents of exactly
    that window. *)
Theorem step_context_is_last_window (st : St) (frames0 : list Frame)
    (actions : list Z) (a : Z) :
  1 <= context_window (session st) ->
  history st = Some frames0 ->
  context_window (session st) <= Z.of_nat (length frames0) ->
  exists frames1 older context,
    history (snd (steps actions st)) = Some frames1 /\
    frames1 = older ++ context /\
    Z.of_nat (length context) = context_window (session st) /\
    (exists b rest,
        calls_of (step a) (snd (steps actions st)) =
        logged (CallTokenize context) b :: rest) /\
    (forall cl hz n c t b,
        In (logged (CallForwardInference cl hz n c t) b)
           (calls_of (step a) (snd (steps actions st))) ->
        exists idx,
          tokenize (vt (session st)) context = Ok idx /\
          vt_get_latents_from_indices (vt (session st)) idx None = Ok cl).
Proof.
  intros HW Hhist Hlen.
  destruct (steps_session actions st) as [Hs Hext].
  set (st1 := snd (steps actions st)) in *.
  rewrite Hhist in Hext. unfold history_extended in Hext.
  destruct (history st1) as [frames1|] eqn:Hhist1; [|contradiction].
  destruct Hext as [added ->].
  assert (Hcw : context_window (session st1) = context_window (session st))
    by (rewrite Hs; reflexivity).
  assert (Hvt : vt (session st1) = vt (session st))
    by (rewrite Hs; reflexivity).
  set (context := slice_from (- context_window (session st)) (frames0 ++ added)).
  destruct (slice_from_suffix (- context_window (session st)) (frames0 ++ added))
    as [older Holder].
  exists (frames0 ++ added), older, context. split; [reflexivity|].
  split; [exact Holder|].
  split.
  { apply slice_from_last. rewrite length_app. lia. }
  split.
  - destruct (step_first_call st1 a _ Hhist1) as (b & rest & Hcall).
    exists b, rest. rewrite Hcall, Hcw. reflexivity.
  - intros cl hz n c t b Hin.
    destruct (step_forward_inference_call st1 a _ _ _ _ _ _ _ Hhist1 Hin)
      as ((idx & Htok & Hlat) & _).
    rewrite Hcw, Hvt in Htok. rewrite Hvt in Hlat. eauto.
Qed.

(** C9.  On a session whose history is shorter than the window, [step]
    takes the whole history as context, and the short history raises
    nothing: if [step] raises, then a model raised, or the codebook is empty,
    or the decoder returned no frame; when none of these happens, [step]
    returns an image. *)
Theorem step_underfilled_window (st : St) (a : Z) (frames : list Frame) :
  history st = Some frames ->
  Z.of_nat (length frames) < context_window (session st) ->
  (exists b rest,
      calls_of (step a) st = logged (CallTokenize frames) b :: rest) /\
  (forall e,
      fst (step a st) = Raise e ->
      (exists entry, In entry (calls_of (step a) st) /\ raised entry = true) \/
      (e = ZeroDivisionError /\ n_actions_of (session st) = 0) \/
      (e = IndexError /\
       exists next_latents,
         In (logged (CallDetokenize next_latents) false) (calls_of (step a) st) /\
         detokenize (vt (session st)) next_latents = Ok [])) /\
  ((forall entry, In entry (calls_of (step a) st) -> raised entry = false) ->
   n_actions_of (session st) <> 0 ->
   (forall next_latents,
       In (logged (CallDetokenize next_latents) false) (calls_of (step a) st) ->
       detokenize (vt (session st)) next_latents <> Ok []) ->
   exists img, fst (step a st) = Ok img).
Proof.
  intros Hhist Hshort. split; [|split].
  - destruct (step_first_call st a frames Hhist) as (b & rest & Hcall).
    rewrite slice_from_underfilled in Hcall by exact Hshort. eauto.
  - intros e He.
    destruct (step_raise_cause st a e He) as [H|[H|[H|H]]]; auto.
    congruence.
  - intros Hmodels Hcodebook Hdecoder.
    destruct (fst (step a st)) as [img|e] eqn:He; [eauto|exfalso].
    destruct (step_raise_cause st a e He)
      as [(entry & Hin & Hr)|[[_ Hz]|[(_ & nl & Hin & Hdet)|Hnone]]].
    + rewrite (Hmodels entry Hin) in Hr. discriminate.
    + contradiction.
    + exact (Hdecoder nl Hin Hdet).
    + congruence.
Qed.

(** C10.  A call of [step] changes no attribute of the session but
    [generated_frames], and every call it makes to the dynamics model asks
    for 10 refinement steps. *)
Theorem step_frame_effect (st : St) (a : Z) :
  let s := session st in
  let s' := session (snd (step a st)) in
  s' = with_generated_frames s (generated_frames s') /\
  vt s' = vt s /\ lam s' = lam s /\ dynamics s' = dynamics s /\
  device s' = device s /\ context_window s' = context_window s /\
  temperature s' = temperature s /\
  prediction_horizon s' = prediction_horizon s /\ amp s' = amp s /\
  (forall cl hz n c t b,
      In (logged (CallForwardInference cl hz n c t) b) (calls_of (step a) st) ->
      n = 10).
Proof.
  cbv zeta. step_cases st a. unfold history in Hsession.
  split; [exact Hsession|].
  repeat (split; [rewrite Hsession; reflexivity|]).
  intros cl hz n c t b Hin.
  destruct (history st) as [frames|] eqn:Hhist.
  - now destruct (step_forward_inference_call st a frames _ _ _ _ _ _ Hhist Hin)
      as (_ & _ & -> & _).
  - rewrite (step_uninitialized_calls st a Hhist) in Hin. contradiction.
Qed.

(** C4 (as amended).  The image [step] returns is the last decoded frame
    with every value [v] replaced by [display v], which clamps [v] to
    [-1, 1], rounds it to float32, adds 1 and multiplies by 127.5 in
    float32, and then drops the fraction (it does not round to nearest):
    the result is in [0, 255], [display (-1) = 0], [display 1 = 255],
    values outside [-1, 1] saturate, and for [v] in [-1, 1] the result is
    the integer part of the float32 product, which can be one above the
    integer part of the exact [(v + 1) * 127.5] (96 and 95 at the float32
    nearest to [96 / 127.5 - 1]). *)
Theorem step_returns_truncated_display :
  (forall (st : St) a img,
      fst (step a st) = Ok img ->
      exists next_latents next_frames frame,
        detokenize (vt (session st)) next_latents = Ok next_frames /\
        index_last next_frames = Ok frame /\
        img = permute_1_2_0 0 (map3 display frame)) /\
  (forall (frame : Frame) c h w,
      (c < length frame)%nat ->
      (h < length (hd [] frame))%nat -> (w < length (hd [] (hd [] frame)))%nat ->
      (h < length (nth c frame []))%nat ->
      (w < length (nth h (nth c frame []) []))%nat ->
      nth c (nth w (nth h (frame_to_uint8 frame) []) []) 0 =
      display (nth w (nth h (nth c frame []) []) 0%Q)) /\
  (forall v, 0 <= display v <= 255) /\
  display (-1) = 0 /\ display 1 = 255 /\
  (forall v, (v <= -1)%Q -> display v = 0) /\
  (forall v, (1 <= v)%Q -> display v = 255) /\
  (forall v, (-1 <= v <= 1)%Q ->
             display v = Qfloor (f32 (f32 (f32 v + 1) * (255 # 2)))) /\
  (display (-16579837 # 67108864) = 96 /\
   Qfloor (((-16579837 # 67108864) + 1) * (255 # 2)) = 95).
Proof.
  split.
  { intros st a img Hok.
    destruct (step_ok st a img Hok)
      as (frames & nl & nf & frame & _ & _ & Hdet & Hlast & -> & _).
    exists nl, nf, frame. rewrite frame_to_uint8_display. auto. }
  split.
  { intros frame c h w Hc Hh Hw Hh' Hw'. apply frame_to_uint8_nth; assumption. }
  split; [exact display_range|].
  split; [vm_compute; reflexivity|]. split; [vm_compute; reflexivity|].
  split; [exact display_saturates_low|].
  split; [exact display_saturates_high|].
  split; [exact display_in_range|].
  split; vm_compute; reflexivity.
Qed.

(** *** More on [set_initial_context] and [step] *)

(** The conditioning that the dynamics model is given. *)
Lemma step_forward_inference_conditioning (st : St) (a : Z) cl hz n c t b :
  In (logged (CallForwardInference cl hz n c t) b) (calls_of (step a) st) ->
  conditioning_of (session st) a c
    (match c with
     | Some _ => [logged (CallActionLatent (a mod n_actions_of (session st))) false]
     | None => []
     end).
Proof.
  intros Hin. step_cases st a.
  inversion Hpath as [Hgf|frames' e Hgf|frames' idx e Hgf|frames' idx lat Hgf
                     |frames' idx lat l e Hgf
                     |frames' idx lat cond cc r h rest Hgf Htok Hlat Hcond Hpred];
    match goal with
    | Hlog : _ = calls_of (step a) st |- _ => rewrite <- Hlog in Hin
    end;
    cbn [In] in Hin;
    try (repeat (destruct Hin as [Heq|Hin]; [discriminate|]); tauto).
  destruct Hin as [Heq|[Heq|Hin]]; try discriminate.
  apply in_app_or in Hin. destruct Hin as [Hin|Hin].
  - inversion Hcond; subst; cbn [In] in Hin;
      try (repeat (destruct Hin as [Heq|Hin]; [discriminate|])); tauto.
  - apply prediction_path_history in Hpred.
    destruct Hpred as (_ & _ & _ & Hfi & _).
    destruct (Hfi _ _ _ _ _ _ Hin) as (_ & _ & _ & -> & _).
    inversion Hcond as [Hnone|l latent Hlam Hnz Hact]; subst.
    + now constructor.
    + unfold n_actions_of. rewrite Hlam. now constructor.
Qed.

(** [step (a + k * n)] is [step a]. *)
Lemma step_mod_invariant (st : St) (a k : Z) :
  step (a + k * n_actions_of (session st)) st = step a st.
Proof.
  unfold_step. step_simpl.
  destruct (generated_frames (session st)); [|reflexivity].
  destruct (tokenize _ _); step_simpl; [|reflexivity].
  destruct (vt_get_latents_from_indices _ _ _); step_simpl; [|reflexivity].
  destruct (Z.eqb_spec (n_actions_of (session st)) 0); [reflexivity|].
  step_simpl. rewrite Z_mod_plus_full. reflexivity.
Qed.

(** X1.  [set_initial_context] discards whatever the session has generated:
    after any run of steps, it leaves the configuration the session was
    built with and exactly the frames given, and the next [step] encodes a
    window of those frames only. *)
Theorem set_initial_context_resets_history (st : St) (actions : list Z)
    (frames : list Frame) (a : Z) :
  let st1 := snd (steps actions st) in
  let st2 := {| session := set_initial_context (session st1) frames;
                calls := calls st1; outbox := outbox st1; stdout := stdout st1 |} in
  history st2 = Some frames /\
  session st2 = with_generated_frames (session st) (Some frames) /\
  exists b rest,
    calls_of (step a) st2 =
    logged (CallTokenize (slice_from (- context_window (session st)) frames)) b :: rest.
Proof.
  cbv zeta. destruct (steps_session actions st) as [Hs _].
  set (st1 := snd (steps actions st)) in *.
  split; [reflexivity|]. split.
  - cbn [session]. unfold set_initial_context. rewrite Hs. reflexivity.
  - match goal with
    | |- context [calls_of (step a) ?s] => set (st2 := s)
    end.
    destruct (step_first_call st2 a frames eq_refl) as (b & rest & Hcall).
    exists b, rest. rewrite Hcall. subst st2. cbn [session].
    unfold set_initial_context. rewrite Hs. reflexivity.
Qed.

(** X2.  Without an action model the action id plays no part: any two ids
    give the same run, no action latent is looked up, and the dynamics model
    is given no conditioning. *)
Theorem step_without_action_model (st : St) (a a' : Z) :
  lam (session st) = None ->
  step a st = step a' st /\
  (forall id b, ~ In (logged (CallActionLatent id) b) (calls_of (step a) st)) /\
  (forall cl hz n c t b,
      In (logged (CallForwardInference cl hz n c t) b) (calls_of (step a) st) ->
      c = None).
Proof.
  intros Hlam. split; [|split].
  - assert (Hn : n_actions_of (session st) = 1)
      by (unfold n_actions_of; now rewrite Hlam).
    pose proof (step_mod_invariant st a' (a - a')) as H.
    rewrite Hn in H. replace (a' + (a - a') * 1) with a in H by lia. exact H.
  - intros id b Hin.
    destruct (step_action_call st a id b Hin) as (l & Hl & _). congruence.
  - intros cl hz n c t b Hin.
    apply step_forward_inference_conditioning in Hin.
    inversion Hin; congruence.
Qed.

(** X3.  With an action model, the conditioning given to the dynamics model
    is the latent that the action model returned for [a mod n]. *)
Theorem step_conditioning_is_looked_up_latent (st : St) (a : Z)
    (l : LatentActionModel ActionLatent) cl hz n c t b :
  lam (session st) = Some l ->
  In (logged (CallForwardInference cl hz n c t) b) (calls_of (step a) st) ->
  exists latent,
    c = Some latent /\
    lam_get_latents_from_indices l (a mod codebook_size l) = Ok latent /\
    In (logged (CallActionLatent (a mod codebook_size l)) false)
       (calls_of (step a) st).
Proof.
  intros Hlam Hin.
  pose proof (step_forward_inference_conditioning st a _ _ _ _ _ _ Hin) as Hcond.
  inversion Hcond as [Hnone|l' latent Hlam' Hnz Hact]; [congruence|].
  rewrite Hlam in Hlam'. injection Hlam' as <-.
  exists latent. split; [reflexivity|]. split; [exact Hact|].
  clear Hcond. step_cases st a.
  inversion Hpath as [Hgf|frames' e Hgf|frames' idx e Hgf|frames' idx lat Hgf
                     |frames' idx lat l' e Hgf
                     |frames' idx lat cond cc r h rest Hgf Htok Hlat Hcond Hpred];
    match goal with
    | Hlog : _ = calls_of (step a) st |- _ => rewrite <- Hlog in Hin
    end;
    cbn [In] in Hin;
    try (repeat (destruct Hin as [Heq|Hin]; [discriminate|]); tauto).
  destruct Hin as [Heq|[Heq|Hin]]; try discriminate.
  right; right. apply in_or_app.
  apply in_app_or in Hin. destruct Hin as [Hin|Hin].
  - inversion Hcond; subst; cbn [In] in Hin;
      try (repeat (destruct Hin as [Heq|Hin]; [discriminate|])); tauto.
  - apply prediction_path_history in Hpred.
    destruct Hpred as (_ & _ & _ & Hfi & _).
    destruct (Hfi _ _ _ _ _ _ Hin) as (_ & _ & _ & Hc & _).
    inversion Hcond as [Hnone|l' latent' Hlam' Hnz' Hact']; subst; [discriminate|].
    rewrite Hlam in Hlam'. injection Hlam' as <-. left. left. reflexivity.
Qed.

(** X4.  An action model with an empty codebook makes [step] raise
    [ZeroDivisionError] once the context is encoded: two calls were made,
    none to the action or the dynamics model, and the session is as it
    was. *)
Theorem step_zero_codebook (st : St) (a : Z) (l : LatentActionModel ActionLatent)
    (frames : list Frame) (idx : VideoIndices) (lat : Latents) :
  lam (session st) = Some l ->
  codebook_size l = 0 ->
  history st = Some frames ->
  tokenize (vt (session st))
           (slice_from (- context_window (session st)) frames) = Ok idx ->
  vt_get_latents_from_indices (vt (session st)) idx None = Ok lat ->
  fst (step a st) = Raise ZeroDivisionError /\
  calls_of (step a) st =
    [logged (CallTokenize (slice_from (- context_window (session st)) frames)) false;
     logged (CallVideoLatents idx) false] /\
  session (snd (step a st)) = session st.
Proof.
  intros Hlam Hzero Hhist Htok Hlat. unfold history in Hhist.
  assert (Hstep : fst (step a st) = Raise ZeroDivisionError /\
                  calls_of (step a) st =
                  [logged (CallTokenize
                             (slice_from (- context_window (session st)) frames)) false;
                   logged (CallVideoLatents idx) false]).
  { unfold calls_of. unfold_step. step_simpl. rewrite Hhist. step_simpl.
    rewrite Htok. step_simpl. rewrite Hlat. step_simpl.
    unfold n_actions_of. rewrite Hlam, Hzero. cbn [Z.eqb fst snd calls].
    rewrite <- app_assoc, skipn_length_app. split; reflexivity. }
  destruct Hstep as [Hr Hc]. split; [exact Hr|]. split; [exact Hc|].
  eapply step_raise_keeps_session. exact Hr.
Qed.

(** X5.  A window size of zero or less does not give an empty context:
    with [context_window = 0] the tokenizer is given the whole history, and
    with [context_window = -k] the history without its [k] oldest frames. *)
Theorem step_context_nonpositive_window (st : St) (a : Z) (frames : list Frame) :
  history st = Some frames ->
  context_window (session st) <= 0 ->
  (exists b rest,
      calls_of (step a) st =
      logged (CallTokenize (skipn (Z.to_nat (- context_window (session st))) frames)) b
      :: rest) /\
  (context_window (session st) = 0 ->
   exists b rest, calls_of (step a) st = logged (CallTokenize frames) b :: rest).
Proof.
  intros Hhist Hw.
  destruct (step_first_call st a frames Hhist) as (b & rest & Hcall).
  rewrite slice_from_nonpositive in Hcall by exact Hw.
  split; [eauto|]. intros Hzero. rewrite Hzero in Hcall. eauto.
Qed.

(** X6.  How much a returning [step] appends, for every prediction horizon
    [H] and every number [n] of decoded frames: [min H n] frames for
    [H >= 1], all [n] for [H = 0], and [max 0 (n + H)] for a negative [H]. *)
Theorem step_history_growth_any_horizon (st : St) (a : Z) (img : Image) :
  fst (step a st) = Ok img ->
  exists next_latents next_frames,
    In (logged (CallDetokenize next_latents) false) (calls_of (step a) st) /\
    detokenize (vt (session st)) next_latents = Ok next_frames /\
    Z.of_nat (history_length (snd (step a st))) =
    Z.of_nat (history_length st) +
    (if 0 <? prediction_horizon (session st)
     then Z.min (prediction_horizon (session st)) (Z.of_nat (length next_frames))
     else Z.max 0 (Z.of_nat (length next_frames) + prediction_horizon (session st))).
Proof.
  intros Hok.
  destruct (step_ok st a img Hok)
    as (frames & nl & nf & frame & Hhist & Hin & Hdet & _ & _ & Hnew).
  exists nl, nf. split; [exact Hin|]. split; [exact Hdet|].
  unfold history_length. rewrite Hnew, Hhist, length_app, Nat2Z.inj_add.
  rewrite slice_from_neg_length. reflexivity.
Qed.

(** X7.  For a prediction horizon [H >= 0], the image a returning [step]
    hands back is the conversion of the newest frame of the history it
    leaves, the frame the next step will be conditioned on last. *)
Theorem step_returns_newest_frame (st : St) (a : Z) (img : Image) :
  fst (step a st) = Ok img ->
  0 <= prediction_horizon (session st) ->
  exists frames' frame,
    history (snd (step a st)) = Some frames' /\
    index_last frames' = Ok frame /\
    img = frame_to_uint8 frame.
Proof.
  intros Hok Hh.
  destruct (step_ok st a img Hok)
    as (frames & nl & nf & frame & Hhist & _ & _ & Hlast & -> & Hnew).
  exists (frames ++ slice_from (- prediction_horizon (session st)) nf), frame.
  split; [exact Hnew|]. split; [|reflexivity].
  pose proof (index_last_slice_from _ nf frame Hh Hlast) as Hslice.
  rewrite index_last_suffix; [exact Hslice|].
  intros Hnil. rewrite Hnil in Hslice. discriminate.
Qed.

(** X8.  When the decoder returns no frame, [step] raises [IndexError]
    although no model call raised, and the session is as it was. *)
Theorem step_empty_decode_raises (st : St) (a : Z) (next_latents : Latents) :
  In (logged (CallDetokenize next_latents) false) (calls_of (step a) st) ->
  detokenize (vt (session st)) next_latents = Ok [] ->
  fst (step a st) = Raise IndexError /\
  session (snd (step a st)) = session st /\
  (forall entry, In entry (calls_of (step a) st) -> raised entry = false).
Proof.
  intros Hin Hdet.
  assert (Hr : fst (step a st) = Raise IndexError /\
               (forall entry, In entry (calls_of (step a) st) -> raised entry = false)).
  { step_cases st a.
    inversion Hpath as [Hgf|frames' e Hgf|frames' idx e Hgf|frames' idx lat Hgf
                       |frames' idx lat l e Hgf
                       |frames' idx lat cond cc r h rest Hgf Htok Hlat Hcond Hpred];
      match goal with
      | Hlog : _ = calls_of (step a) st |- _ => rewrite <- Hlog in Hin
      end;
      cbn [In] in Hin;
      try (repeat (destruct Hin as [Heq|Hin]; [discriminate|]); tauto).
    destruct Hin as [Heq|[Heq|Hin]]; try discriminate.
    apply in_app_or in Hin. destruct Hin as [Hin|Hin].
    { inversion Hcond; subst; cbn [In] in Hin;
        try (repeat (destruct Hin as [Heq|Hin]; [discriminate|])); tauto. }
    assert (Hcc : forall entry, In entry cc -> raised entry = false).
    { inversion Hcond; subst; cbn [In]; [tauto|].
      intros entry [<-|[]]. reflexivity. }
    inversion Hpred as [e Hfi|nl e Hfi Hdet'|nl Hfi Hdet'|nl nf frame Hfi Hdet' Hlast];
      subst; cbn [In] in Hin.
    - destruct Hin as [Heq|[]]. discriminate.
    - destruct Hin as [Heq|[Heq|[]]]; discriminate.
    - split; [reflexivity|].
      intros entry [<-|[<-|Hentry]]; try reflexivity.
      apply in_app_or in Hentry. destruct Hentry as [Hentry|Hentry]; [auto|].
      cbn [In] in Hentry. destruct Hentry as [<-|[<-|[]]]; reflexivity.
    - destruct Hin as [Heq|[Heq|[]]]; try discriminate.
      injection Heq as <-. rewrite Hdet in Hdet'. injection Hdet' as <-.
      discriminate. }
  destruct Hr as [Hr Hall]. split; [exact Hr|]. split; [|exact Hall].
  eapply step_raise_keeps_session. exact Hr.
Qed.

(** X9.  The calls a returning [step] itself makes to the models, in
    order: the tokenizer on the context, the video latents of the
    tokenizer's result, the action latent at the wrapped action id (only
    when there is an action model), the dynamics model on the video latents
    and that action latent (on [None] without an action model), and the
    decoder on the result of the dynamics model; each once, and none raised.
    The lookups that the dynamics model makes through the callback it is
    handed happen inside [forward_inference] and are not calls of [step]. *)
Theorem step_returning_call_sequence (st : St) (a : Z) (img : Image) :
  fst (step a st) = Ok img ->
  exists frames idx lat cond next_latents next_frames,
    history st = Some frames /\
    tokenize (vt (session st))
             (slice_from (- context_window (session st)) frames) = Ok idx /\
    vt_get_latents_from_indices (vt (session st)) idx None = Ok lat /\
    match lam (session st) with
    | Some l =>
        exists latent,
          lam_get_latents_from_indices l (a mod codebook_size l) = Ok latent /\
          cond = Some latent
    | None => cond = None
    end /\
    forward_inference (dynamics (session st)) lat
      (prediction_horizon (session st)) 10
      (fun idx => vt_get_latents_from_indices (vt (session st)) idx (Some (-1)))
      cond (temperature (session st)) = Ok next_latents /\
    detokenize (vt (session st)) next_latents = Ok next_frames /\
    map call (calls_of (step a) st) =
      CallTokenize (slice_from (- context_window (session st)) frames)
      :: CallVideoLatents idx
      :: match lam (session st) with
         | Some l => [CallActionLatent (a mod codebook_size l)]
         | None => []
         end
      ++ [CallForwardInference lat (prediction_horizon (session st)) 10 cond
                               (temperature (session st));
          CallDetokenize next_latents] /\
    Forall (fun entry => raised entry = false) (calls_of (step a) st).
Proof.
  intros Hok. step_cases st a. rewrite Hok in Hpath.
  inversion Hpath as [| | | |
                     |frames idx lat cond cc r h rest Hgf Htok Hlat Hcond Hpred].
  subst. inversion Hpred as [| | |nl nf frame Hfi Hdet Hlast]. subst.
  exists frames, idx, lat, cond, nl, nf.
  split; [exact Hgf|]. split; [exact Htok|]. split; [exact Hlat|].
  inversion Hcond as [Hnone|l latent Hlam Hnz Hact]; subst.
  - rewrite Hnone. split; [reflexivity|].
    split; [exact Hfi|]. split; [exact Hdet|].
    split; [reflexivity|]. repeat constructor.
  - rewrite Hlam. split; [exists latent; split; [exact Hact|reflexivity]|].
    split; [exact Hfi|]. split; [exact Hdet|].
    split; [reflexivity|]. repeat constructor.
Qed.

End StepProperties.

(** ** The client handler and the server *)

Section ServerProperties.

Context {VideoIndices Latents ActionLatent : Type}.

Variable json_loads : string -> result JSON.
Variable int_of_str : string -> result Z.
Variable frame_to_png_bytes : Image -> result string.

Local Abbreviation St := (State VideoIndices Latents ActionLatent).
Local Abbreviation decode := (decode_action json_loads int_of_str).
Local Abbreviation handle_message' :=
  (@handle_message VideoIndices Latents ActionLatent
                   json_loads int_of_str frame_to_png_bytes).
Local Abbreviation handle_loop' :=
  (@handle_loop VideoIndices Latents ActionLatent
                json_loads int_of_str frame_to_png_bytes).
Local Abbreviation handle_client' :=
  (@handle_client VideoIndices Latents ActionLatent
                  json_loads int_of_str frame_to_png_bytes).
Local Abbreviation serve' :=
  (@serve VideoIndices Latents ActionLatent
          json_loads int_of_str frame_to_png_bytes).

(** A message that does not decode raises before anything is done. *)
Lemma handle_message_undecoded (peer message : string) (e : Exception) (st : St) :
  decode message = Raise e -> handle_message' peer message st = (Raise e, st).
Proof.
  intros H. unfold handle_message, bind, lift. rewrite H. reflexivity.
Qed.

Lemma handle_loop_app (peer : string) (pre post : list string) (st : St) :
  handle_loop' peer (pre ++ post) st =
  match handle_loop' peer pre st with
  | (Ok _, st1) => handle_loop' peer post st1
  | (Raise e, st1) => (Raise e, st1)
  end.
Proof.
  revert st. induction pre as [|m pre IH]; intros st; [reflexivity|].
  cbn [app handle_loop]. unfold bind.
  destruct (handle_message' peer m st) as [[[]|e] st1]; [apply IH|reflexivity].
Qed.



(** The handler catches everything: it returns, having printed three lines
    when the loop raised and two when the messages ran out. *)
Lemma handle_client_unfold (ws : Websocket) (st : St) :
  handle_client' ws st =
  match handle_loop' (remote_address ws) (incoming ws)
          (snd (print ("Client connected: " ++ remote_address ws) st)) with
  | (Ok _, st1) => print "Client disconnected" st1
  | (Raise e, st1) =>
      print "Client disconnected"
            (snd (print ("Session error: " ++ str_of_exception e) st1))
  end.
Proof.
  unfold handle_client, bind, try_finally, try_except. cbn [print snd].
  destruct (handle_loop' _ _ _) as [[[]|e] st1]; reflexivity.
Qed.

Lemma handle_client_returns (ws : Websocket) (st : St) :
  fst (handle_client' ws st) = Ok tt.
Proof.
  rewrite handle_client_unfold.
  destruct (handle_loop' _ _ _) as [[[]|e] st1]; reflexivity.
Qed.





(** C7 (as amended).  A message that does not decode is reported on the
    standard output and changes neither the session nor the call log nor
    what was sent; it ends the handler, which prints its last line and
    returns: the messages after it are not read. *)
Theorem malformed_message_ends_handler (ws : Websocket)
    (pre rest : list string) (bad : string) (e : Exception) (st st1 : St) :
  incoming ws = pre ++ bad :: rest ->
  decode bad = Raise e ->
  handle_loop' (remote_address ws) pre
    (snd (print ("Client connected: " ++ remote_address ws) st)) = (Ok tt, st1) ->
  handle_client' ws st =
  (Ok tt, {| session := session st1; calls := calls st1; outbox := outbox st1;
             stdout := stdout st1
                       ++ [("Session error: " ++ str_of_exception e)%string]
                       ++ ["Client disconnected"%string] |}).
Proof.
  intros Hin Hbad Hpre.
  rewrite handle_client_unfold, Hin, handle_loop_app, Hpre.
  cbn [handle_loop]. unfold bind at 1.
  rewrite (handle_message_undecoded _ _ _ _ Hbad).
  cbn [print snd session calls outbox stdout]. unfold print.
  cbn [session calls outbox stdout]. rewrite <- app_assoc. reflexivity.
Qed.


(** *** More on [handle_client] *)

(** One message prints nothing and sends at most one frame, to the peer of
    its connection; it sends one when it is handled without exception. *)
Lemma handle_message_effects (peer message : string) (st : St) :
  let r := fst (handle_message' peer message st) in
  let st' := snd (handle_message' peer message st) in
  stdout st' = stdout st /\
  ((r = Ok tt /\ exists png, outbox st' = outbox st ++ [(peer, png)]) \/
   ((exists e, r = Raise e) /\ outbox st' = outbox st)).
Proof.
  cbv zeta. unfold handle_message, bind, lift, send.
  destruct (decode message) as [a|e]; cbn [fst snd]; [|split; eauto].
  destruct (step_inversion st a) as (_ & _ & _ & Ho & Hout). cbv zeta in Ho, Hout.
  destruct (step a st) as [[frame|e] st1]; cbn [fst snd] in *; [|split; eauto].
  destruct (frame_to_png_bytes frame) as [png|e]; cbn [fst snd outbox stdout];
    [|split; eauto].
  split; [exact Hout|]. left. split; [reflexivity|]. exists png. now rewrite Ho.
Qed.

Lemma handle_loop_effects (peer : string) (messages : list string) (st : St) :
  let r := fst (handle_loop' peer messages st) in
  let st' := snd (handle_loop' peer messages st) in
  stdout st' = stdout st /\
  exists sent,
    outbox st' = outbox st ++ map (fun png => (peer, png)) sent /\
    (length sent <= length messages)%nat /\
    (r = Ok tt -> length sent = length messages).
Proof.
  cbv zeta. revert st. induction messages as [|m rest IH]; intros st.
  - cbn. split; [reflexivity|]. exists []. rewrite app_nil_r. auto.
  - cbn [handle_loop]. unfold bind.
    destruct (handle_message_effects peer m st) as [Hout Hsent].
    cbv zeta in Hout, Hsent.
    destruct (handle_message' peer m st) as [[[]|e] st1]; cbn [fst snd] in *.
    + destruct Hsent as [[_ [png Hpng]]|[[e He] _]]; [|discriminate].
      destruct (IH st1) as (IHout & sent & IHsent & IHle & IHok).
      split; [congruence|]. exists (png :: sent). cbn [map length].
      split; [rewrite IHsent, Hpng, <- app_assoc; reflexivity|].
      split; [lia|]. intros Hok. rewrite (IHok Hok). reflexivity.
    + destruct Hsent as [[Hok _]|[_ Hsame]]; [discriminate|].
      split; [exact Hout|]. exists []. cbn [map length]. rewrite app_nil_r.
      split; [exact Hsame|]. split; [lia|]. discriminate.
Qed.

(** X13.  The handler never lets an exception out: whatever the messages
    and the models do, it returns, having printed the connection line
    first, the disconnection line last and, between them, nothing or one
    line for the exception that ended the loop. *)
Theorem handle_client_always_returns (ws : Websocket) (st : St) :
  fst (handle_client' ws st) = Ok tt /\
  exists middle,
    stdout (snd (handle_client' ws st)) =
      stdout st ++ [("Client connected: " ++ remote_address ws)%string]
                ++ middle ++ ["Client disconnected"%string] /\
    (middle = [] \/
     exists e, middle = [("Session error: " ++ str_of_exception e)%string]).
Proof.
  split; [apply handle_client_returns|].
  rewrite handle_client_unfold.
  destruct (handle_loop_effects (remote_address ws) (incoming ws)
              (snd (print ("Client connected: " ++ remote_address ws) st)))
    as [Hout _].
  cbv zeta in Hout.
  destruct (handle_loop' _ _ _) as [[[]|e] st1]; cbn [fst snd] in *;
    unfold print in *; cbn [snd stdout] in *; rewrite Hout.
  - exists []. split; [|auto]. rewrite <- app_assoc. reflexivity.
  - exists [("Session error: " ++ str_of_exception e)%string].
    split; [|eauto]. rewrite <- !app_assoc. reflexivity.
Qed.

(** X14.  The handler sends frames to the peer of its own connection only,
    at most one per message received, and exactly one per message when the
    loop ran through all of them. *)
Theorem handle_client_sends_to_its_peer (ws : Websocket) (st : St) :
  exists sent,
    outbox (snd (handle_client' ws st)) =
      outbox st ++ map (fun png => (remote_address ws, png)) sent /\
    (length sent <= length (incoming ws))%nat /\
    (fst (handle_loop' (remote_address ws) (incoming ws)
            (snd (print ("Client connected: " ++ remote_address ws) st))) = Ok tt ->
     length sent = length (incoming ws)).
Proof.
  rewrite handle_client_unfold.
  destruct (handle_loop_effects (remote_address ws) (incoming ws)
              (snd (print ("Client connected: " ++ remote_address ws) st)))
    as (_ & sent & Hsent & Hle & Hok).
  cbv zeta in Hsent, Hok.
  exists sent.
  destruct (handle_loop' _ _ _) as [[[]|e] st1]; cbn [fst snd] in *;
    unfold print in *; cbn [snd outbox] in *; auto.
Qed.

(** X15.  A step that raises ends the handler as a message that does not
    decode does: the exception is printed, nothing is sent for the message,
    the session is the one before the message, and the messages after it
    are not read. *)
Theorem generation_failure_ends_handler (ws : Websocket)
    (pre rest : list string) (message : string) (a : Z) (e : Exception)
    (st st1 : St) :
  incoming ws = pre ++ message :: rest ->
  decode message = Ok a ->
  handle_loop' (remote_address ws) pre
    (snd (print ("Client connected: " ++ remote_address ws) st)) = (Ok tt, st1) ->
  fst (step a st1) = Raise e ->
  handle_client' ws st =
  (Ok tt, {| session := session st1;
             calls := calls st1 ++ calls_of (step a) st1;
             outbox := outbox st1;
             stdout := stdout st1
                       ++ [("Session error: " ++ str_of_exception e)%string]
                       ++ ["Client disconnected"%string] |}).
Proof.
  intros Hin Hdec Hpre Hraise.
  rewrite handle_client_unfold, Hin, handle_loop_app, Hpre.
  cbn [handle_loop]. unfold bind at 1. unfold handle_message, bind, lift.
  rewrite Hdec.
  pose proof (step_raise_keeps_session st1 a e Hraise) as Hs.
  destruct (step_inversion st1 a) as (_ & _ & Hc & Ho & Hout).
  cbv zeta in Hc, Ho, Hout.
  destruct (step a st1) as [[img|e'] st2]; cbn [fst snd] in *; [discriminate|].
  injection Hraise as ->.
  unfold print. cbn [snd session calls outbox stdout].
  rewrite Hs, Hc, Ho, Hout, <- app_assoc. reflexivity.
Qed.

(** X16.  When the PNG encoder raises, the step has already been taken: the
    session keeps the frames just generated although nothing is sent for the
    message, and the handler ends. *)
Theorem encoding_failure_keeps_generated_frames (ws : Websocket)
    (pre rest : list string) (message : string) (a : Z) (img : Image)
    (e : Exception) (st st1 st2 : St) :
  incoming ws = pre ++ message :: rest ->
  decode message = Ok a ->
  handle_loop' (remote_address ws) pre
    (snd (print ("Client connected: " ++ remote_address ws) st)) = (Ok tt, st1) ->
  step a st1 = (Ok img, st2) ->
  frame_to_png_bytes img = Raise e ->
  handle_client' ws st =
  (Ok tt, {| session := session st2;
             calls := calls st2;
             outbox := outbox st1;
             stdout := stdout st1
                       ++ [("Session error: " ++ str_of_exception e)%string]
                       ++ ["Client disconnected"%string] |}) /\
  exists frames next_latents next_frames,
    history st1 = Some frames /\
    detokenize (vt (session st1)) next_latents = Ok next_frames /\
    next_frames <> [] /\
    history st2 =
    Some (frames ++ slice_from (- prediction_horizon (session st1)) next_frames).
Proof.
  intros Hin Hdec Hpre Hstep Hpng. split.
  - rewrite handle_client_unfold, Hin, handle_loop_app, Hpre.
    cbn [handle_loop]. unfold bind at 1. unfold handle_message, bind, lift.
    rewrite Hdec.
    destruct (step_inversion st1 a) as (_ & _ & _ & Ho & Hout).
    cbv zeta in Ho, Hout. rewrite Hstep in *. cbn [fst snd] in *.
    rewrite Hpng. unfold print. cbn [snd session calls outbox stdout].
    rewrite Ho, Hout, <- app_assoc. reflexivity.
  - assert (Hok : fst (step a st1) = Ok img) by (now rewrite Hstep).
    destruct (step_ok st1 a img Hok)
      as (frames & nl & nf & frame & Hhist & _ & Hdet & Hlast & _ & Hnew).
    rewrite Hstep in Hnew. cbn [snd] in Hnew.
    exists frames, nl, nf. repeat split; auto.
    intros ->. discriminate.
Qed.

Lemma assoc_get_missing (members : list (string * JSON)) (key : string)
    (default : JSON) :
  (forall v, ~ In (key, v) members) -> assoc_get members key default = default.
Proof.
  induction members as [|[k v] rest IH]; intros Hno; [reflexivity|].
  cbn [assoc_get]. destruct (String.eqb_spec k key) as [->|_].
  - exfalso. apply (Hno v). left. reflexivity.
  - apply IH. intros v' Hin. apply (Hno v'). right. exact Hin.
Qed.

(** X17.  A message that decodes to an object without an [action] member
    stands for action 0, and is handled exactly as a message carrying
    action 0; a message that decodes to anything but an object raises
    [AttributeError]. *)
Theorem decode_action_missing_key (message : string) (data : JSON) :
  json_loads message = Ok data ->
  (forall members,
      data = JObject members ->
      (forall v, ~ In ("action"%string, v) members) ->
      decode message = Ok 0 /\
      forall peer message' st,
        decode message' = Ok 0 ->
        handle_message' peer message st = handle_message' peer message' st) /\
  ((forall members, data <> JObject members) ->
   decode message = Raise AttributeError).
Proof.
  intros Hload. split.
  - intros members -> Hno.
    assert (Hdec : decode message = Ok 0).
    { unfold decode_action. rewrite Hload. cbn [json_get].
      rewrite assoc_get_missing by exact Hno. reflexivity. }
    split; [exact Hdec|].
    intros peer message' st Hdec'. unfold handle_message. now rewrite Hdec, Hdec'.
  - intros Hnot. unfold decode_action. rewrite Hload.
    destruct data; try reflexivity. exfalso. eapply Hnot. reflexivity.
Qed.

(** X18.  Two messages whose action ids differ by a multiple of the number
    of actions are handled in the same way: same outcome, same session, same
    calls, same frame sent. *)
Theorem handle_message_action_wraps (peer message message' : string)
    (a k : Z) (st : St) :
  decode message = Ok a ->
  decode message' = Ok (a + k * n_actions_of (session st)) ->
  handle_message' peer message' st = handle_message' peer message st.
Proof.
  intros Hdec Hdec'. unfold handle_message, bind, lift.
  rewrite Hdec, Hdec', step_mod_invariant. reflexivity.
Qed.

End ServerProperties.

(** ** Concrete runs *)

(** The scenario of section 8 of the specification: four seed frames, W = 4,
    [step 2] with a codebook of three actions; the history gets one frame
    longer. *)
Lemma step_history_grows_by_horizon_witness :
  Z.of_nat (history_length (snd (step 2 (fresh_state Toy.session4)))) =
  Z.of_nat (history_length (fresh_state Toy.session4)) + 1.
Proof.
  apply (proj2 (proj2 (step_history_grows_by_horizon (fresh_state Toy.session4)))
               2 [[[0]]]).
  - reflexivity.
  - vm_compute. discriminate.
  - intros next_latents next_frames Hin Hdet.
    injection Hdet as <-.
    vm_compute in Hin.
    destruct Hin as [H|[H|[H|[H|[H|[]]]]]]; try discriminate.
    injection H as <-. vm_compute. discriminate.
Defined.

(** C1 fails as stated: [set_initial_context] is an operation of the
    session, and on a session with four frames it leaves one. *)
Lemma set_initial_context_shortens_history :
  (history_length (fresh_state (set_initial_context Toy.session4 [Toy.pixel 0]))
   < history_length (fresh_state Toy.session4))%nat.
Proof. vm_compute. lia. Qed.

Lemma step_gateway_failure_is_atomic_witness :
  exists e,
    fst (step 5 (fresh_state Toy.session_failing)) = Raise e /\
    session (snd (step 5 (fresh_state Toy.session_failing))) = Toy.session_failing /\
    history (snd (step 5 (fresh_state Toy.session_failing))) = Some Toy.seed4 /\
    outbox (snd (step 5 (fresh_state Toy.session_failing))) = [] /\
    stdout (snd (step 5 (fresh_state Toy.session_failing))) = [].
Proof.
  apply (step_gateway_failure_is_atomic (fresh_state Toy.session_failing) 5
           (logged (CallTokenize Toy.seed4) true)).
  - vm_compute. left. reflexivity.
  - reflexivity.
Defined.

(** The scenario of section 8: with a codebook of five actions, action 6
    behaves as action 1. *)
Lemma step_action_id_wraps_witness :
  step (1 + 1 * 5) (fresh_state Toy.session5) = step 1 (fresh_state Toy.session5) /\
  (forall id b,
      In (logged (CallActionLatent id) b) (calls_of (step 1) (fresh_state Toy.session5)) ->
      id = 1 mod 5 /\ (0 < 5 -> 0 <= id < 5)) /\
  (forall frames idx lat,
      history (fresh_state Toy.session5) = Some frames ->
      tokenize Toy.toy_vt (slice_from (- 4) frames) = Ok idx ->
      vt_get_latents_from_indices Toy.toy_vt idx None = Ok lat ->
      5 <> 0 ->
      exists b,
        In (logged (CallActionLatent (1 mod 5)) b)
           (calls_of (step 1) (fresh_state Toy.session5))).
Proof.
  apply (step_action_id_wraps (fresh_state Toy.session5) 1 1 (Toy.toy_lam 5)).
  reflexivity.
Defined.

Lemma step_before_initialize_raises_witness :
  step 0 (fresh_state Toy.session_uninitialized) =
  (Raise (RuntimeError "Call set_initial_context first"),
   fresh_state Toy.session_uninitialized) /\
  calls_of (step 0) (fresh_state Toy.session_uninitialized) = [] /\
  history (snd (step 0 (fresh_state Toy.session_uninitialized))) = None /\
  history_length (snd (step 0 (fresh_state Toy.session_uninitialized))) = 0%nat.
Proof.
  apply (step_before_initialize_raises (fresh_state Toy.session_uninitialized) 0).
  reflexivity.
Defined.

Lemma step_context_is_last_window_witness :
  exists frames1 older context,
    history (snd (steps [0; 1] (fresh_state Toy.session4))) = Some frames1 /\
    frames1 = older ++ context /\
    Z.of_nat (length context) = 4 /\
    (exists b rest,
        calls_of (step 2) (snd (steps [0; 1] (fresh_state Toy.session4))) =
        logged (CallTokenize context) b :: rest) /\
    (forall cl hz n c t b,
        In (logged (CallForwardInference cl hz n c t) b)
           (calls_of (step 2) (snd (steps [0; 1] (fresh_state Toy.session4)))) ->
        exists idx,
          tokenize Toy.toy_vt context = Ok idx /\
          vt_get_latents_from_indices Toy.toy_vt idx None = Ok cl).
Proof.
  apply (step_context_is_last_window (fresh_state Toy.session4) Toy.seed4 [0; 1] 2).
  - vm_compute. discriminate.
  - reflexivity.
  - vm_compute. discriminate.
Defined.

Lemma step_underfilled_window_witness :
  (exists b rest,
      calls_of (step 5) (fresh_state Toy.session_short) =
      logged (CallTokenize [Toy.pixel (-1 # 2); Toy.pixel 1]) b :: rest) /\
  (forall e,
      fst (step 5 (fresh_state Toy.session_short)) = Raise e ->
      (exists entry,
          In entry (calls_of (step 5) (fresh_state Toy.session_short)) /\
          raised entry = true) \/
      (e = ZeroDivisionError /\ n_actions_of Toy.session_short = 0) \/
      (e = IndexError /\
       exists next_latents,
         In (logged (CallDetokenize next_latents) false)
            (calls_of (step 5) (fresh_state Toy.session_short)) /\
         detokenize Toy.toy_vt next_latents = Ok [])) /\
  exists img, fst (step 5 (fresh_state Toy.session_short)) = Ok img.
Proof.
  destruct (step_underfilled_window (fresh_state Toy.session_short) 5
              [Toy.pixel (-1 # 2); Toy.pixel 1]) as (Hfirst & Hcause & Hreturns).
  - reflexivity.
  - vm_compute. reflexivity.
  - split; [exact Hfirst|]. split; [exact Hcause|].
    apply Hreturns.
    + intros entry Hin. vm_compute in Hin.
      destruct Hin as [<-|[<-|[<-|[<-|[<-|[]]]]]]; reflexivity.
    + vm_compute. discriminate.
    + intros next_latents Hin Hdet. vm_compute in Hin.
      destruct Hin as [H|[H|[H|[H|[H|[]]]]]]; try discriminate.
      injection H as <-. discriminate.
Defined.

(** With two frames for a window of four, [step] returns. *)
Example step_underfilled_returns :
  fst (step 5 (fresh_state Toy.session_short)) = Ok [[[63]]].
Proof. reflexivity. Qed.

(** The image returned for a last decoded frame holding -1/2. *)
Lemma step_returns_truncated_display_witness :
  exists next_latents next_frames frame,
    detokenize Toy.toy_vt next_latents = Ok next_frames /\
    index_last next_frames = Ok frame /\
    [[[63]]] = permute_1_2_0 0 (map3 display frame).
Proof.
  apply (proj1 step_returns_truncated_display (fresh_state Toy.session_short) 5
               [[[63]]]).
  reflexivity.
Defined.

(** The one call to the dynamics model in [step 2] asks for 10 refinement
    steps. *)
Lemma step_frame_effect_witness :
  exists n,
    In (logged (CallForwardInference Toy.seed4 1 n (Some 2) (1 # 2)) false)
       (calls_of (step 2) (fresh_state Toy.session4)) /\
    n = 10.
Proof.
  exists 10.
  assert (Hin : In (logged (CallForwardInference Toy.seed4 1 10 (Some 2) (1 # 2)) false)
                   (calls_of (step 2) (fresh_state Toy.session4)))
    by (vm_compute; tauto).
  split; [exact Hin|].
  destruct (step_frame_effect (fresh_state Toy.session4) 2)
    as (_ & _ & _ & _ & _ & _ & _ & _ & _ & Hsteps).
  exact (Hsteps _ _ _ _ _ _ Hin).
Defined.

(** C4 fails as stated: the value -1/2 becomes 63.75 (-1/2, 1/2 and 63.75
    are float32 values, so nothing is rounded on the way), which [step]
    turns into 63 and rounding to nearest into 64. *)
Lemma step_truncates_where_spec_rounds :
  fst (step 5 (fresh_state Toy.session_short)) = Ok [[[63]]] /\
  permute_1_2_0 0 (map3 display_spec (Toy.pixel (-1 # 2))) = [[[64]]] /\
  display (-1 # 2) <> display_spec (-1 # 2).
Proof. repeat split. vm_compute. discriminate. Qed.

(** Where the float32 product differs from the exact one: at the float32
    nearest to [96 / 127.5 - 1] and at the largest float32 below 1 the exact
    product is just below an integer and the float32 product is the
    integer. *)
Lemma display_float32_examples :
  display (-16579837 # 67108864) = 96 /\
  Qfloor (((-16579837 # 67108864) + 1) * (255 # 2)) = 95 /\
  display (16777215 # 16777216) = 255 /\
  Qfloor (((16777215 # 16777216) + 1) * (255 # 2)) = 254.
Proof. repeat split; vm_compute; reflexivity. Qed.

(** A connection that sends an action, then a message that does not decode,
    then another action. *)
Lemma malformed_message_ends_handler_witness :
  Toy.toy_handle_client {| remote_address := "A"; incoming := ["0"; "bad"; "1"] |}%string
                        (fresh_state Toy.session2) =
  (Ok tt,
   {| session := with_generated_frames Toy.session2
                   (Some [Toy.pixel (-1); Toy.pixel 1; Toy.pixel (-1)]);
      calls := calls (snd (step 0 (fresh_state Toy.session2)));
      outbox := [("A", "black")]%string;
      stdout := ["Client connected: A"; "Session error: JSONDecodeError";
                 "Client disconnected"]%string |}).
Proof.
  apply (malformed_message_ends_handler Toy.toy_json_loads Toy.toy_int_of_str
           Toy.toy_png
           {| remote_address := "A"; incoming := ["0"; "bad"; "1"] |}%string
           ["0"%string] ["1"%string] "bad"%string JSONDecodeError
           (fresh_state Toy.session2)
           {| session := with_generated_frames Toy.session2
                           (Some [Toy.pixel (-1); Toy.pixel 1; Toy.pixel (-1)]);
              calls := calls (snd (step 0 (fresh_state Toy.session2)));
              outbox := [("A", "black")]%string;
              stdout := ["Client connected: A"]%string |}).
  - reflexivity.
  - reflexivity.
  - reflexivity.
Defined.

(** C7 fails as stated: the action sent after the message that does not
    decode is never processed, though alone it is answered with a frame. *)
Lemma message_after_malformed_is_not_processed :
  let bad_then_good := {| remote_address := "A"; incoming := ["bad"; "0"] |}%string in
  let good := {| remote_address := "A"; incoming := ["0"] |}%string in
  outbox (snd (Toy.toy_handle_client bad_then_good (fresh_state Toy.session2))) = [] /\
  calls (snd (Toy.toy_handle_client bad_then_good (fresh_state Toy.session2))) = [] /\
  stdout (snd (Toy.toy_handle_client bad_then_good (fresh_state Toy.session2))) =
    ["Client connected: A"; "Session error: JSONDecodeError";
     "Client disconnected"]%string /\
  outbox (snd (Toy.toy_handle_client good (fresh_state Toy.session2))) =
    [("A", "black")]%string.
Proof. cbv zeta. repeat split. Qed.


(** ** More on the conversion to pixels *)

Lemma clamp_monotone (v w : Q) : (v <= w)%Q -> (clamp (-1) 1 v <= clamp (-1) 1 w)%Q.
Proof.
  intros H. unfold clamp.
  apply Q.min_le_compat_r, Q.max_le_compat_r. exact H.
Qed.

(** X10.  The conversion keeps the order of values: a larger value of the
    frame never gives a smaller byte. *)
Theorem display_monotone (v w : Q) : (v <= w)%Q -> display v <= display w.
Proof.
  intros H. rewrite !display_floor.
  apply Qfloor_resp_le, float_pixel_monotone. exact H.
Qed.

Lemma display_monotone_witness : display (-1 # 2) <= display (1 # 3).
Proof. apply display_monotone. vm_compute. discriminate. Defined.

(** The float32 arithmetic moves the scaled value by less than a
    thousandth. *)
Lemma float_pixel_error (v : Q) :
  (-1 <= v <= 1)%Q ->
  ((v + 1) * (255 # 2) - (1 # 1000) <= float_pixel v
   <= (v + 1) * (255 # 2) + (1 # 1000))%Q.
Proof.
  intros Hv. unfold float_pixel.
  destruct f32_exact_values as (Hm1 & H0 & H1 & H2 & _).
  pose proof (clamp_inside v Hv) as Hc.
  assert (Hcb : (-1 <= clamp (-1) 1 v <= 1)%Q) by (rewrite Hc; exact Hv).
  pose proof (f32_error_1 _ Hcb) as Ec.
  pose proof (f32_monotone _ _ (proj1 Hcb)) as Hclo. rewrite Hm1 in Hclo.
  pose proof (f32_monotone _ _ (proj2 Hcb)) as Hchi. rewrite H1 in Hchi.
  set (c := f32 (clamp (-1) 1 v)) in *.
  assert (Es : (c + 1 - (1 # 8388608) <= f32 (c + 1)
                <= c + 1 + (1 # 8388608))%Q) by (apply f32_error_2; lra).
  assert (Hslo : (0 <= f32 (c + 1))%Q)
    by (rewrite <- H0; apply f32_monotone; lra).
  assert (Hshi : (f32 (c + 1) <= 2)%Q)
    by (rewrite <- H2; apply f32_monotone; lra).
  set (sum := f32 (c + 1)) in *.
  assert (Ep : (sum * (255 # 2) - (1 # 65536) <= f32 (sum * (255 # 2))
                <= sum * (255 # 2) + (1 # 65536))%Q)
    by (apply f32_error_256; lra).
  lra.
Qed.

(** X11.  The byte [step] produces is never above the byte that rounding
    to nearest would give, and at most one below it. *)
Theorem display_within_one_of_rounding (v : Q) :
  0 <= display_spec v - display v <= 1.
Proof.
  unfold display_spec.
  set (y := ((v + 1) * (255 # 2))%Q).
  destruct (Qlt_le_dec v (-1)) as [Hlow|Hlow];
    [|destruct (Qlt_le_dec 1 v) as [Hhigh|Hhigh]].
  - rewrite (display_saturates_low v) by (apply Qlt_le_weak; exact Hlow).
    assert (Hr : round_half_even y <= 0)
      by (apply round_half_even_le; change (inject_Z 0) with 0%Q;
          subst y; lra).
    lia.
  - rewrite (display_saturates_high v) by (apply Qlt_le_weak; exact Hhigh).
    assert (Hr : 255 <= round_half_even y)
      by (apply round_half_even_ge; change (inject_Z 255) with 255%Q;
          subst y; lra).
    lia.
  - assert (Hv : (-1 <= v <= 1)%Q) by (split; assumption).
    rewrite display_floor.
    pose proof (float_pixel_error v Hv) as Herr. fold y in Herr.
    destruct (Qfloor_bounds (float_pixel v)) as [Hf1 Hf2].
    destruct (round_half_even_error y) as [Hr1 Hr2].
    assert (H0 : 0 <= round_half_even y)
      by (apply round_half_even_ge; change (inject_Z 0) with 0%Q;
          subst y; lra).
    assert (H255 : round_half_even y <= 255)
      by (apply round_half_even_le; change (inject_Z 255) with 255%Q;
          subst y; lra).
    assert (Hlo : Qfloor (float_pixel v) < round_half_even y + 1).
    { rewrite Zlt_Qlt, inject_Z_plus. change (inject_Z 1) with 1%Q. lra. }
    assert (Hhi : round_half_even y < Qfloor (float_pixel v) + 2).
    { rewrite Zlt_Qlt, inject_Z_plus. change (inject_Z 2) with 2%Q. lra. }
    lia.
Qed.

Lemma in_map3_display_range (frame : Frame) (ch : list (list Z)) (h w : nat) :
  In ch (map3 display frame) -> 0 <= nth w (nth h ch []) 0 <= 255.
Proof.
  unfold map3. intros Hin. apply in_map_iff in Hin. destruct Hin as (ch0 & <- & _).
  destruct (nth_in_or_default h (map (map display) ch0) []) as [Hrow|Hrow].
  - apply in_map_iff in Hrow. destruct Hrow as (row0 & <- & _).
    destruct (nth_in_or_default w (map display row0) 0) as [Hv|Hv].
    + apply in_map_iff in Hv. destruct Hv as (v & <- & _). apply display_range.
    + rewrite Hv. lia.
  - rewrite Hrow. destruct w; cbn; lia.
Qed.

(** X12.  The image has the layout the docstring of [step] promises,
    height x width x channels: as many rows as the first channel of the
    frame, as many pixels per row as that channel's first row, as many
    values per pixel as the frame has channels; and every value is a byte. *)
Theorem frame_to_uint8_shape_and_range (frame : Frame) :
  length (frame_to_uint8 frame) = length (hd [] frame) /\
  Forall (fun row =>
            length row = length (hd [] (hd [] frame)) /\
            Forall (fun px =>
                      length px = length frame /\
                      Forall (fun v => 0 <= v <= 255) px) row)
         (frame_to_uint8 frame).
Proof.
  rewrite frame_to_uint8_display. unfold permute_1_2_0.
  assert (HH : length (hd [] (map3 display frame)) = length (hd [] frame)).
  { unfold map3. change (@nil (list Z)) with (map (map display) []) at 1.
    rewrite hd_map, length_map. reflexivity. }
  assert (HW : length (hd [] (hd [] (map3 display frame)))
               = length (hd [] (hd [] frame))).
  { unfold map3. change (@nil (list Z)) with (map (map display) []) at 1.
    rewrite hd_map. change (@nil Z) with (map display []) at 1.
    rewrite hd_map, length_map. reflexivity. }
  rewrite HH, HW. split.
  - rewrite length_map, length_seq. reflexivity.
  - apply Forall_forall. intros row Hrow.
    apply in_map_iff in Hrow. destruct Hrow as (h & <- & _). split.
    + rewrite length_map, length_seq. reflexivity.
    + apply Forall_forall. intros px Hpx.
      apply in_map_iff in Hpx. destruct Hpx as (w & <- & _). split.
      * rewrite length_map. unfold map3. rewrite length_map. reflexivity.
      * apply Forall_forall. intros v Hv.
        apply in_map_iff in Hv. destruct Hv as (ch & <- & Hch).
        apply (in_map3_display_range frame). exact Hch.
Qed.

(** ** [main]: the session it builds *)

(** X24.  The session [main] builds holds the settings it was given and the
    initial frames; when those are as many as the window, as the data loader
    is asked to supply, the first [step] encodes exactly the initial
    frames. *)
Theorem main_session_first_step {VideoIndices Latents ActionLatent : Type}
    (video_tokenizer : VideoTokenizer VideoIndices Latents)
    (latent_action_model : option (LatentActionModel ActionLatent))
    (dynamics_model : DynamicsModel VideoIndices Latents ActionLatent)
    (dev : string) (cw : Z) (temp : Q) (ph : Z) (use_amp : bool)
    (initial_frames : list Frame) (a : Z) :
  1 <= cw ->
  Z.of_nat (length initial_frames) = cw ->
  let s := main_session video_tokenizer latent_action_model dynamics_model
                        dev cw temp ph use_amp initial_frames in
  generated_frames s = Some initial_frames /\
  context_window s = cw /\ temperature s = temp /\
  prediction_horizon s = ph /\ amp s = use_amp /\ device s = dev /\
  exists b rest,
    calls_of (step a) (fresh_state s) = logged (CallTokenize initial_frames) b :: rest.
Proof.
  intros Hcw Hlen s. repeat (split; [reflexivity|]).
  destruct (step_first_call (fresh_state s) a initial_frames eq_refl)
    as (b & rest & Hcall).
  exists b, rest. rewrite Hcall. cbn [fresh_state session s main_session
                                      set_initial_context with_generated_frames
                                      context_window init].
  destruct (slice_from_last cw initial_frames) as [Hslice _]; [lia|].
  rewrite Hslice. replace (length initial_frames - Z.to_nat cw)%nat with 0%nat by lia.
  reflexivity.
Qed.

Lemma main_session_first_step_witness :
  let s := Toy.session4 in
  generated_frames s = Some Toy.seed4 /\
  context_window s = 4 /\ temperature s = (1 # 2)%Q /\
  prediction_horizon s = 1 /\ amp s = true /\ device s = "cpu"%string /\
  exists b rest,
    calls_of (step 2) (fresh_state s) = logged (CallTokenize Toy.seed4) b :: rest.
Proof.
  apply (main_session_first_step Toy.toy_vt (Some (Toy.toy_lam 3)) Toy.toy_dynamics
           "cpu" 4 (1 # 2) 1 true Toy.seed4 2).
  - vm_compute. discriminate.
  - reflexivity.
Defined.

(** ** Concrete runs of the further properties *)

Lemma step_without_action_model_witness :
  step 7 (fresh_state Toy.session_no_lam) = step 2 (fresh_state Toy.session_no_lam) /\
  (forall id b,
      ~ In (logged (CallActionLatent id) b)
           (calls_of (step 7) (fresh_state Toy.session_no_lam))) /\
  (forall cl hz n c t b,
      In (logged (CallForwardInference cl hz n c t) b)
         (calls_of (step 7) (fresh_state Toy.session_no_lam)) ->
      c = None).
Proof.
  apply (step_without_action_model (fresh_state Toy.session_no_lam) 7 2).
  reflexivity.
Defined.

Lemma step_conditioning_is_looked_up_latent_witness :
  exists latent,
    Some 2 = Some latent /\
    lam_get_latents_from_indices (Toy.toy_lam 3) (5 mod 3) = Ok latent /\
    In (logged (CallActionLatent (5 mod 3)) false)
       (calls_of (step 5) (fresh_state Toy.session4)).
Proof.
  apply (step_conditioning_is_looked_up_latent (fresh_state Toy.session4) 5
           (Toy.toy_lam 3) Toy.seed4 1 10 (Some 2) (1 # 2)%Q false).
  - reflexivity.
  - vm_compute. tauto.
Defined.

Lemma step_zero_codebook_witness :
  fst (step 1 (fresh_state Toy.session_zero_codebook)) = Raise ZeroDivisionError /\
  calls_of (step 1) (fresh_state Toy.session_zero_codebook) =
    [logged (CallTokenize (slice_from (- 4) Toy.seed4)) false;
     logged (CallVideoLatents Toy.seed4) false] /\
  session (snd (step 1 (fresh_state Toy.session_zero_codebook))) =
    Toy.session_zero_codebook.
Proof.
  apply (step_zero_codebook (fresh_state Toy.session_zero_codebook) 1 (Toy.toy_lam 0)
           Toy.seed4 Toy.seed4 Toy.seed4); reflexivity.
Defined.

Lemma step_context_nonpositive_window_witness :
  (exists b rest,
      calls_of (step 1) (fresh_state Toy.session_window_zero) =
      logged (CallTokenize (skipn (Z.to_nat (- 0)) Toy.seed4)) b :: rest) /\
  (0 = 0 ->
   exists b rest,
     calls_of (step 1) (fresh_state Toy.session_window_zero) =
     logged (CallTokenize Toy.seed4) b :: rest).
Proof.
  apply (step_context_nonpositive_window (fresh_state Toy.session_window_zero) 1
           Toy.seed4).
  - reflexivity.
  - vm_compute. discriminate.
Defined.

Lemma step_history_growth_any_horizon_witness :
  exists next_latents next_frames,
    In (logged (CallDetokenize next_latents) false)
       (calls_of (step 2) (fresh_state Toy.session4)) /\
    detokenize Toy.toy_vt next_latents = Ok next_frames /\
    Z.of_nat (history_length (snd (step 2 (fresh_state Toy.session4)))) =
    Z.of_nat (history_length (fresh_state Toy.session4)) +
    (if 0 <? 1 then Z.min 1 (Z.of_nat (length next_frames))
     else Z.max 0 (Z.of_nat (length next_frames) + 1)).
Proof.
  apply (step_history_growth_any_horizon (fresh_state Toy.session4) 2 [[[0]]]).
  reflexivity.
Defined.

Lemma step_returns_newest_frame_witness :
  exists frames' frame,
    history (snd (step 2 (fresh_state Toy.session4))) = Some frames' /\
    index_last frames' = Ok frame /\
    [[[0]]] = frame_to_uint8 frame.
Proof.
  apply (step_returns_newest_frame (fresh_state Toy.session4) 2 [[[0]]]).
  - reflexivity.
  - vm_compute. discriminate.
Defined.

Lemma step_empty_decode_raises_witness :
  fst (step 2 (fresh_state Toy.session_empty_decoder)) = Raise IndexError /\
  session (snd (step 2 (fresh_state Toy.session_empty_decoder))) =
    Toy.session_empty_decoder /\
  (forall entry,
      In entry (calls_of (step 2) (fresh_state Toy.session_empty_decoder)) ->
      raised entry = false).
Proof.
  apply (step_empty_decode_raises (fresh_state Toy.session_empty_decoder) 2
           [Toy.pixel (-1)]).
  - vm_compute. tauto.
  - reflexivity.
Defined.

Lemma step_returning_call_sequence_witness :
  exists frames idx lat cond next_latents next_frames,
    history (fresh_state Toy.session4) = Some frames /\
    tokenize Toy.toy_vt (slice_from (- 4) frames) = Ok idx /\
    vt_get_latents_from_indices Toy.toy_vt idx None = Ok lat /\
    (exists latent,
        lam_get_latents_from_indices (Toy.toy_lam 3) (2 mod 3) = Ok latent /\
        cond = Some latent) /\
    forward_inference Toy.toy_dynamics lat 1 10
      (fun idx => vt_get_latents_from_indices Toy.toy_vt idx (Some (-1)))
      cond (1 # 2)%Q = Ok next_latents /\
    detokenize Toy.toy_vt next_latents = Ok next_frames /\
    map call (calls_of (step 2) (fresh_state Toy.session4)) =
      CallTokenize (slice_from (- 4) frames)
      :: CallVideoLatents idx
      :: [CallActionLatent (2 mod 3)]
      ++ [CallForwardInference lat 1 10 cond (1 # 2)%Q; CallDetokenize next_latents] /\
    Forall (fun entry => raised entry = false)
           (calls_of (step 2) (fresh_state Toy.session4)).
Proof.
  apply (step_returning_call_sequence (fresh_state Toy.session4) 2 [[[0]]]).
  reflexivity.
Defined.

(** The tokenizer of the session raises on the only message. *)
Lemma generation_failure_ends_handler_witness :
  Toy.toy_handle_client {| remote_address := "A"; incoming := ["0"; "1"] |}%string
                        (fresh_state Toy.session_failing) =
  (Ok tt,
   {| session := Toy.session_failing;
      calls := [logged (CallTokenize Toy.seed4) true];
      outbox := [];
      stdout := ["Client connected: A"; "Session error: tokenize";
                 "Client disconnected"]%string |}).
Proof.
  apply (generation_failure_ends_handler Toy.toy_json_loads Toy.toy_int_of_str
           Toy.toy_png
           {| remote_address := "A"; incoming := ["0"; "1"] |}%string
           [] ["1"%string] "0"%string 0 (GatewayFailure "tokenize")
           (fresh_state Toy.session_failing)
           {| session := Toy.session_failing; calls := []; outbox := [];
              stdout := ["Client connected: A"]%string |});
    reflexivity.
Defined.

(** The encoder raises: the history has the new frame, nothing was sent. *)
Lemma encoding_failure_keeps_generated_frames_witness :
  handle_client Toy.toy_json_loads Toy.toy_int_of_str Toy.failing_png
                {| remote_address := "A"; incoming := ["0"; "1"] |}%string
                (fresh_state Toy.session2) =
  (Ok tt,
   {| session := session (snd (step 0 (fresh_state Toy.session2)));
      calls := calls (snd (step 0 (fresh_state Toy.session2)));
      outbox := [];
      stdout := ["Client connected: A"; "Session error: cannot write mode";
                 "Client disconnected"]%string |}) /\
  exists frames next_latents next_frames,
    Some [Toy.pixel (-1); Toy.pixel 1] = Some frames /\
    detokenize Toy.toy_vt next_latents = Ok next_frames /\
    next_frames <> [] /\
    history (snd (step 0 (fresh_state Toy.session2))) =
    Some (frames ++ slice_from (- 1) next_frames).
Proof.
  apply (encoding_failure_keeps_generated_frames Toy.toy_json_loads
           Toy.toy_int_of_str Toy.failing_png
           {| remote_address := "A"; incoming := ["0"; "1"] |}%string
           [] ["1"%string] "0"%string 0 [[[0]]] (GatewayFailure "cannot write mode")
           (fresh_state Toy.session2)
           {| session := Toy.session2; calls := []; outbox := [];
              stdout := ["Client connected: A"]%string |}
           (snd (step 0 {| session := Toy.session2; calls := []; outbox := [];
                           stdout := ["Client connected: A"]%string |})));
    reflexivity.
Defined.

Lemma decode_action_missing_key_witness :
  (forall members,
      JObject [] = JObject members ->
      (forall v, ~ In ("action"%string, v) members) ->
      decode_action Toy.toy_json_loads Toy.toy_int_of_str "{}" = Ok 0 /\
      forall peer message' (st : State Toy.Indices Toy.Lat Toy.ActLat),
        decode_action Toy.toy_json_loads Toy.toy_int_of_str message' = Ok 0 ->
        handle_message Toy.toy_json_loads Toy.toy_int_of_str Toy.toy_png
                       peer "{}" st =
        handle_message Toy.toy_json_loads Toy.toy_int_of_str Toy.toy_png
                       peer message' st) /\
  ((forall members, JObject [] <> JObject members) ->
   decode_action Toy.toy_json_loads Toy.toy_int_of_str "{}" = Raise AttributeError).
Proof.
  apply (decode_action_missing_key (VideoIndices := Toy.Indices)
           (Latents := Toy.Lat) (ActionLatent := Toy.ActLat)
           Toy.toy_json_loads Toy.toy_int_of_str Toy.toy_png "{}" (JObject [])).
  reflexivity.
Defined.

(** Without an action model there is one action: the messages for action 2
    and for action 0 are handled alike. *)
Lemma handle_message_action_wraps_witness :
  handle_message Toy.toy_json_loads Toy.toy_int_of_str Toy.toy_png
                 "A" "2" (fresh_state Toy.session_no_lam) =
  handle_message Toy.toy_json_loads Toy.toy_int_of_str Toy.toy_png
                 "A" "0" (fresh_state Toy.session_no_lam).
Proof.
  apply (handle_message_action_wraps Toy.toy_json_loads Toy.toy_int_of_str
           Toy.toy_png "A" "0" "2" 0 2 (fresh_state Toy.session_no_lam));
    reflexivity.
Defined.

(** ** The capture server *)

Module CaptureProofs.

Import Capture.

Lemma frames_written_app (l r : list Effect) :
  frames_written (l ++ r) = frames_written l ++ frames_written r.
Proof.
  induction l as [|e l IH]; [reflexivity|].
  destruct e; cbn [app frames_written]; rewrite IH; reflexivity.
Qed.

Lemma writers_opened_app (l r : list Effect) :
  writers_opened (l ++ r) = writers_opened l ++ writers_opened r.
Proof.
  induction l as [|e l IH]; [reflexivity|].
  destruct e; cbn [app writers_opened]; rewrite IH; reflexivity.
Qed.

(** One more frame is one more progress line exactly when the new count is
    a multiple of 100. *)
Lemma hundreds_step (c : Z) :
  (c + 1) / 100 - c / 100 = if (c + 1) mod 100 =? 0 then 1 else 0.
Proof.
  destruct (Z.eqb_spec ((c + 1) mod 100) 0) as [H|H];
    Z.div_mod_to_equations; lia.
Qed.

Section Server.

Variable image_open : string -> result Picture.
Variable resize : Z * Z -> Picture -> result Picture.
Variable dirname : string -> string.
Variable makedirs : string -> result unit.
Variable getsize : string -> result Z.

Local Abbreviation add_frame' := (add_frame image_open resize dirname makedirs).
Local Abbreviation handler_loop' := (handler_loop image_open resize dirname makedirs).
Local Abbreviation handler' := (handler image_open resize dirname makedirs).
Local Abbreviation serve' := (serve image_open resize dirname makedirs).
Local Abbreviation main' := (main image_open resize dirname makedirs getsize).

(** What [add_frame] does, by cases: it raises with the object untouched
    (after at most an attempt to create the directory), or it writes one
    frame, to a video file that it opens first when there is none. *)
Lemma add_frame_cases (data : string) (w : World) :
  let r := fst (add_frame' data w) in
  let w' := snd (add_frame' data w) in
  ((exists e, r = Raise e) /\
   self w' = self w /\ printed w' = printed w /\
   frames_written (effects w') = frames_written (effects w) /\
   writers_opened (effects w') = writers_opened (effects w)) \/
  (r = Ok tt /\
   output_path (self w') = output_path (self w) /\
   fps (self w') = fps (self w) /\
   resolution (self w') = resolution (self w) /\
   frame_count (self w') = frame_count (self w) + 1 /\
   printed w' = printed w ++ progress_lines (frame_count (self w) + 1) /\
   exists frame,
     frames_written (effects w') = frames_written (effects w) ++ [frame] /\
     match writer (self w) with
     | Some v =>
         writer (self w') = Some v /\
         writers_opened (effects w') = writers_opened (effects w)
     | None =>
         exists v,
           writer (self w') = Some v /\
           vw_path v = output_path (self w) /\ vw_fps v = fps (self w) /\
           vw_size v = (snd (shape2 frame), fst (shape2 frame)) /\
           writers_opened (effects w') = writers_opened (effects w) ++ [v]
     end).
Proof.
  cbv zeta. unfold add_frame, open_writer_if_none, bind, lift, get_self.
  destruct (image_open data) as [img|e]; cbn [fst snd]; [|left; eauto 6].
  destruct (resize (resolution (self w)) img) as [img'|e]; cbn [fst snd];
    [|left; eauto 6].
  destruct (writer (self w)) as [v|] eqn:Hw; cbn [fst snd].
  - right. unfold ret, effect, increment_frame_count, print, progress_lines.
    cbn [fst snd self effects printed frame_count writer output_path fps resolution].
    destruct (_ =? 0); cbn [fst snd self effects printed frame_count writer
                                output_path fps resolution];
      rewrite ?app_nil_r;
      (repeat (split; [reflexivity|]));
      exists (cvtColor_RGB2BGR img');
      rewrite frames_written_app, writers_opened_app;
      cbn [frames_written writers_opened]; rewrite ?app_nil_r; auto.
  - unfold shape2. cbn [fst snd]. unfold effect at 1. cbn [fst snd effects self].
    destruct (makedirs _) as [[]|e]; cbn [fst snd].
    + right. unfold ret, effect, set_writer, increment_frame_count, print,
        progress_lines.
      cbn [fst snd self effects printed frame_count writer output_path fps resolution].
      destruct (_ =? 0); cbn [fst snd self effects printed frame_count writer
                                  output_path fps resolution];
        rewrite ?app_nil_r;
        (repeat (split; [reflexivity|]));
        exists (cvtColor_RGB2BGR img');
        rewrite !frames_written_app, !writers_opened_app;
        cbn [frames_written writers_opened]; rewrite ?app_nil_r;
        (split; [reflexivity|]);
        eexists; repeat split; reflexivity.
    + left. unfold effect. cbn [fst snd self effects printed].
      rewrite frames_written_app, writers_opened_app.
      cbn [frames_written writers_opened]. rewrite !app_nil_r. eauto 6.
Qed.

Lemma add_frame_consistent (data : string) (w : World) :
  consistent w -> consistent (snd (add_frame' data w)).
Proof.
  intros (Hcount & Hopened & Hnone).
  destruct (add_frame_cases data w)
    as [(_ & Hself & _ & Hfw & Hwo)
       |(_ & _ & _ & _ & Hc & _ & frame & Hfw & Hwriter)];
    cbv zeta in *; unfold consistent.
  - rewrite Hself, Hfw, Hwo. auto.
  - rewrite Hc, Hfw, Hcount, length_app. cbn [length].
    split; [lia|].
    destruct (writer (self w)) as [v|] eqn:Hw.
    + destruct Hwriter as [-> ->]. split; [exact Hopened|].
      split; [discriminate|]. intros H. now apply app_eq_nil in H.
    + destruct Hwriter as (v & -> & _ & _ & _ & ->). rewrite Hopened.
      split; [reflexivity|].
      split; [discriminate|]. intros H. now apply app_eq_nil in H.
Qed.

(** The loop keeps the settings of the writer object and its consistency,
    and prints progress lines only. *)
Lemma handler_loop_facts (messages : list Message) (w : World) :
  let w' := snd (handler_loop' messages w) in
  output_path (self w') = output_path (self w) /\
  fps (self w') = fps (self w) /\
  resolution (self w') = resolution (self w) /\
  (consistent w -> consistent w') /\
  exists counts,
    printed w' = printed w ++ map LineCaptured counts /\
    Forall (fun c => c mod 100 = 0) counts /\
    Z.of_nat (length counts) =
    frame_count (self w') / 100 - frame_count (self w) / 100.
Proof.
  cbv zeta. revert w. induction messages as [|[s|data] rest IH]; intros w.
  - cbn [handler_loop ret snd].
    split; [reflexivity|]. split; [reflexivity|]. split; [reflexivity|].
    split; [auto|]. exists []. cbn [map length]. rewrite app_nil_r.
    split; [reflexivity|]. split; [constructor|]. lia.
  - cbn [handler_loop]. apply IH.
  - cbn [handler_loop]. unfold bind.
    pose proof (add_frame_consistent data w) as Hcons.
    destruct (add_frame_cases data w)
      as [([e He] & Hself & Hprinted & _)
         |(Hok & Hp & Hf & Hr & Hc & Hprinted & _)];
      cbv zeta in *;
      destruct (add_frame' data w) as [[[]|e'] w1]; cbn [fst snd] in *;
      try discriminate.
    + rewrite Hself.
      split; [reflexivity|]. split; [reflexivity|]. split; [reflexivity|].
      split; [auto|]. exists []. cbn [map length]. rewrite app_nil_r.
      split; [exact Hprinted|]. split; [constructor|]. lia.
    + destruct (IH w1) as (IHp & IHf & IHr & IHcons & counts & IHprinted & IHall & IHlen).
      split; [congruence|]. split; [congruence|]. split; [congruence|].
      split; [auto|].
      exists (match progress_lines (frame_count (self w) + 1) with
              | [] => []
              | _ => [frame_count (self w) + 1]
              end ++ counts).
      rewrite IHprinted, Hprinted, map_app, <- app_assoc.
      pose proof (hundreds_step (frame_count (self w))) as Hstep.
      rewrite Hc in IHlen. unfold progress_lines in *. revert Hstep.
      destruct (Z.eqb_spec ((frame_count (self w) + 1) mod 100) 0) as [Hm|Hm];
        intros Hstep.
      * split; [reflexivity|]. split; [constructor; assumption|].
        rewrite length_app. cbn [length]. lia.
      * split; [reflexivity|]. split; [exact IHall|].
        cbn [app]. lia.
Qed.

Lemma handler_loop_app (pre post : list Message) (w : World) :
  handler_loop' (pre ++ post) w =
  match handler_loop' pre w with
  | (Ok _, w1) => handler_loop' post w1
  | (Raise e, w1) => (Raise e, w1)
  end.
Proof.
  revert w. induction pre as [|[s|data] pre IH]; intros w; [reflexivity| |].
  - cbn [app handler_loop]. apply IH.
  - cbn [app handler_loop]. unfold bind.
    destruct (add_frame' data w) as [[[]|e] w1]; [apply IH|reflexivity].
Qed.

Lemma handler_unfold (ws : Websocket) (w : World) :
  handler' ws w =
  match handler_loop' (incoming ws) (snd (print (LineConnected (remote_address ws)) w)) with
  | (Ok _, w1) => print (LineDisconnected (frame_count (self w1))) w1
  | (Raise e, w1) =>
      print (LineDisconnected (frame_count (self w1)))
            (snd (print (LineConnectionError e) w1))
  end.
Proof.
  unfold handler, bind, try_finally, try_except, get_self. cbn [print snd].
  destruct (handler_loop' _ _) as [[[]|e] w1]; reflexivity.
Qed.

Lemma handler_returns (ws : Websocket) (w : World) :
  fst (handler' ws w) = Ok tt.
Proof.
  rewrite handler_unfold.
  destruct (handler_loop' _ _) as [[[]|e] w1]; reflexivity.
Qed.

Lemma handler_facts (ws : Websocket) (w : World) :
  let w' := snd (handler' ws w) in
  output_path (self w') = output_path (self w) /\
  fps (self w') = fps (self w) /\
  (consistent w -> consistent w').
Proof.
  cbv zeta. rewrite handler_unfold.
  destruct (handler_loop_facts (incoming ws)
              (snd (print (LineConnected (remote_address ws)) w)))
    as (Hp & Hf & _ & Hcons & _).
  cbv zeta in *.
  destruct (handler_loop' _ _) as [[[]|e] w1]; cbn [fst snd print self] in *;
    auto.
Qed.

Lemma capture_serve_cons (ws : Websocket) (rest : list Websocket) (w : World) :
  serve' (ws :: rest) w = serve' rest (snd (handler' ws w)).
Proof.
  cbn [serve]. unfold bind.
  pose proof (handler_returns ws w) as H.
  destruct (handler' ws w) as [[[]|e] w1]; cbn [fst snd] in *;
    [reflexivity|discriminate].
Qed.

Lemma serve_facts (connections : list Websocket) (w : World) :
  let w' := snd (serve' connections w) in
  fst (serve' connections w) = Ok tt /\
  output_path (self w') = output_path (self w) /\
  fps (self w') = fps (self w) /\
  (consistent w -> consistent w').
Proof.
  cbv zeta. revert w. induction connections as [|ws rest IH]; intros w.
  - cbn. auto.
  - rewrite capture_serve_cons.
    destruct (handler_facts ws w) as (Hp & Hf & Hcons). cbv zeta in *.
    destruct (IH (snd (handler' ws w))) as (IHok & IHp & IHf & IHcons).
    split; [exact IHok|]. split; [congruence|]. split; [congruence|auto].
Qed.

(** X19.  Whatever the connections send, the writer object stays
    consistent: its frame count is the number of frames written to the
    video, the video file was opened at most once and is the writer the
    object holds, and there is no writer exactly as long as no frame was
    written. *)
Theorem serve_keeps_writer_consistent (connections : list Websocket) (w : World) :
  consistent w -> consistent (snd (serve' connections w)).
Proof.
  revert w. induction connections as [|ws rest IH]; intros w Hcons.
  - exact Hcons.
  - rewrite capture_serve_cons. apply IH.
    destruct (handler_facts ws w) as (_ & _ & Hkeep). cbv zeta in Hkeep.
    apply Hkeep. exact Hcons.
Qed.

(** X20.  Text messages are skipped: a connection is handled as if it had
    sent its binary messages only. *)
Theorem handler_ignores_text_messages (ws : Websocket) (w : World) :
  handler' ws w =
  handler' {| remote_address := remote_address ws;
              incoming := filter is_binary (incoming ws) |} w.
Proof.
  assert (Hloop : forall messages w0,
             handler_loop' messages w0 = handler_loop' (filter is_binary messages) w0).
  { induction messages as [|[s|data] rest IH]; intros w0; [reflexivity| |].
    - cbn [filter is_binary handler_loop]. apply IH.
    - cbn [filter is_binary handler_loop]. unfold bind.
      destruct (add_frame' data w0) as [[[]|e] w1]; [apply IH|reflexivity]. }
  rewrite !handler_unfold. cbn [remote_address incoming].
  rewrite <- Hloop. reflexivity.
Qed.

(** X21.  The loop prints nothing but progress lines, one each time the
    frame count reaches a multiple of 100: between a count of [c] and a
    count of [c'] there are [c' / 100 - c / 100] of them. *)
Theorem handler_loop_progress_lines (messages : list Message) (w : World) :
  let w' := snd (handler_loop' messages w) in
  exists counts,
    printed w' = printed w ++ map LineCaptured counts /\
    Forall (fun c => c mod 100 = 0) counts /\
    Z.of_nat (length counts) =
    frame_count (self w') / 100 - frame_count (self w) / 100.
Proof.
  cbv zeta.
  destruct (handler_loop_facts messages w)
    as (_ & _ & _ & _ & counts & Hprinted & Hhundreds & Hnumber).
  cbv zeta in *.
  exists counts. split; [exact Hprinted|]. split; [exact Hhundreds|exact Hnumber].
Qed.

(** X22.  A binary message that is not a readable image ends the handler:
    the error and the total are printed, the frames written before it
    stay written and counted, and the messages after it are not read. *)
Theorem unreadable_frame_ends_handler (ws : Websocket)
    (pre rest : list Message) (data : string) (e : Exception) (w w1 : World) :
  incoming ws = pre ++ Binary data :: rest ->
  image_open data = Raise e ->
  handler_loop' pre (snd (print (LineConnected (remote_address ws)) w)) = (Ok tt, w1) ->
  handler' ws w =
  (Ok tt, {| self := self w1; effects := effects w1;
             printed := printed w1 ++ [LineConnectionError e;
                                       LineDisconnected (frame_count (self w1))] |}).
Proof.
  intros Hin Hbad Hpre.
  rewrite handler_unfold, Hin, handler_loop_app, Hpre.
  cbn [handler_loop]. unfold bind at 1. unfold add_frame, bind, lift.
  rewrite Hbad. cbn [fst snd]. unfold print. cbn [snd self effects printed].
  rewrite <- app_assoc. reflexivity.
Qed.

(** X23.  What [main] does once the connections are over.  With no frame
    written there is no writer and nothing is done, even for [fps = 0];
    with frames written and [fps = 0] the writer is released and
    [ZeroDivisionError] comes out of [main], no line being printed;
    otherwise the line printed reports the number of frames written and
    that number divided by [fps] as the duration. *)
Theorem main_reports_frames_written (output : string) (port : Z) (host : string)
    (fps_ : Z) (resolution_ : Z * Z) (connections : list Websocket) :
  let w0 := {| self := init output fps_ resolution_; effects := [];
               printed := [LineListening host port;
                           LineOutput output fps_ resolution_] |} in
  let w1 := snd (serve' connections w0) in
  let n := Z.of_nat (length (frames_written (effects w1))) in
  let run := main' output port host fps_ resolution_ connections in
  frame_count (self w1) = n /\
  (n = 0 -> run = (Ok tt, w1)) /\
  (n <> 0 -> fps_ = 0 ->
   run = (Raise ZeroDivisionError,
          {| self := self w1; effects := effects w1 ++ [ReleaseWriter];
             printed := printed w1 |})) /\
  (forall size,
      n <> 0 -> fps_ <> 0 -> getsize output = Ok size ->
      run = (Ok tt,
             {| self := self w1;
                effects := effects w1 ++ [ReleaseWriter; GetSize output];
                printed := printed w1
                  ++ [LineSaved output n (inject_Z n / inject_Z fps_)
                                (inject_Z size / inject_Z (1024 * 1024))] |})).
Proof.
  cbv zeta.
  set (w0 := {| self := init output fps_ resolution_; effects := [];
                printed := [LineListening host port;
                            LineOutput output fps_ resolution_] |}).
  assert (Hcons0 : consistent w0).
  { unfold consistent. cbn. repeat split; auto. }
  destruct (serve_facts connections w0) as (Hok & Hp & Hf & Hcons).
  cbv zeta in *. specialize (Hcons Hcons0).
  destruct Hcons as (Hcount & _ & Hnone).
  assert (Hrun : main' output port host fps_ resolution_ connections =
                 finalize getsize (snd (serve' connections w0))).
  { unfold main, bind, print, try_finally. cbn [fst snd self effects printed app].
    fold w0. destruct (serve' connections w0) as [[[]|e] w1]; cbn [fst snd] in *;
      [|discriminate].
    destruct (finalize getsize w1) as [[[]|e] w2]; reflexivity. }
  rewrite Hrun. clear Hrun.
  set (w1 := snd (serve' connections w0)) in *.
  assert (Hp' : output_path (self w1) = output) by exact Hp.
  assert (Hf' : fps (self w1) = fps_) by exact Hf.
  clear Hp Hf. rename Hp' into Hp. rename Hf' into Hf.
  split; [exact Hcount|].
  unfold finalize, bind, get_self, lift, effect, print, py_truediv.
  cbn [fst snd self effects printed].
  split; [|split].
  - intros Hn.
    assert (Hnil : frames_written (effects w1) = [])
      by (destruct (frames_written (effects w1)); [reflexivity|discriminate]).
    apply Hnone in Hnil. rewrite Hnil. destruct w1; reflexivity.
  - intros Hn Hfps.
    destruct (writer (self w1)) as [v|] eqn:Hw.
    + rewrite Hf, Hfps. reflexivity.
    + exfalso. apply Hn. destruct Hnone as [Hnone _].
      now rewrite (Hnone eq_refl).
  - intros size Hn Hfps Hsize.
    destruct (writer (self w1)) as [v|] eqn:Hw.
    + rewrite Hf, Hp. destruct (Z.eqb_spec fps_ 0) as [|_]; [contradiction|].
      cbn [fst snd self effects printed]. rewrite Hsize.
      cbn [fst snd self effects printed]. rewrite Hcount, <- app_assoc.
      reflexivity.
    + exfalso. apply Hn. destruct Hnone as [Hnone _].
      now rewrite (Hnone eq_refl).
Qed.

(** X25.  [add_frame] is all or nothing: when it raises (the image cannot
    be read or resized, or the directory cannot be made), the writer object,
    the lines printed, the frames written and the video files opened are
    what they were. *)
Theorem add_frame_failure_changes_nothing (data : string) (e : Exception) (w : World) :
  fst (add_frame' data w) = Raise e ->
  let w' := snd (add_frame' data w) in
  self w' = self w /\ printed w' = printed w /\
  frames_written (effects w') = frames_written (effects w) /\
  writers_opened (effects w') = writers_opened (effects w).
Proof.
  intros Hraise.
  destruct (add_frame_cases data w) as [(_ & H)|(Hok & _)]; cbv zeta in *.
  - exact H.
  - rewrite Hok in Hraise. discriminate.
Qed.

(** X26.  The first frame written opens the video: with the path and the
    rate of the writer object and, as size, the width and then the height
    of that frame (its shape is height, then width); with a video open, a
    frame is written to it and nothing is opened. *)
Theorem add_frame_opens_video_once (data : string) (w : World) :
  fst (add_frame' data w) = Ok tt ->
  let w' := snd (add_frame' data w) in
  frame_count (self w') = frame_count (self w) + 1 /\
  exists frame,
    frames_written (effects w') = frames_written (effects w) ++ [frame] /\
    match writer (self w) with
    | Some v =>
        writer (self w') = Some v /\
        writers_opened (effects w') = writers_opened (effects w)
    | None =>
        exists v,
          writer (self w') = Some v /\
          vw_path v = output_path (self w) /\ vw_fps v = fps (self w) /\
          vw_size v = (snd (shape2 frame), fst (shape2 frame)) /\
          writers_opened (effects w') = writers_opened (effects w) ++ [v]
    end.
Proof.
  intros Hok.
  destruct (add_frame_cases data w)
    as [([e He] & _)|(_ & _ & _ & _ & Hc & _ & Hframe)]; cbv zeta in *.
  - rewrite Hok in He. discriminate.
  - split; [exact Hc|exact Hframe].
Qed.

Lemma handler_loop_count_monotone (messages : list Message) (w : World) :
  frame_count (self w) <= frame_count (self (snd (handler_loop' messages w))).
Proof.
  revert w. induction messages as [|[s|data] rest IH]; intros w.
  - cbn. lia.
  - cbn [handler_loop]. apply IH.
  - cbn [handler_loop]. unfold bind.
    destruct (add_frame_cases data w)
      as [([e He] & Hself & _)|(Hok & _ & _ & _ & Hc & _)]; cbv zeta in *;
      destruct (add_frame' data w) as [[[]|e'] w1]; cbn [fst snd] in *;
      try discriminate.
    + rewrite Hself. lia.
    + specialize (IH w1). lia.
Qed.

(** X27.  The handler never lets an exception out, and the total in its last
    line is the frame count of the shared writer object when the connection
    ends: the frames of all connections so far, never fewer than when the
    connection began. *)
Theorem handler_reports_shared_total (ws : Websocket) (w : World) :
  let w' := snd (handler' ws w) in
  fst (handler' ws w) = Ok tt /\
  frame_count (self w) <= frame_count (self w') /\
  exists lines,
    printed w' = printed w ++ LineConnected (remote_address ws) :: lines
                           ++ [LineDisconnected (frame_count (self w'))].
Proof.
  cbv zeta. split; [apply handler_returns|].
  rewrite handler_unfold.
  pose proof (handler_loop_count_monotone (incoming ws)
                (snd (print (LineConnected (remote_address ws)) w))) as Hmono.
  destruct (handler_loop_facts (incoming ws)
              (snd (print (LineConnected (remote_address ws)) w)))
    as (_ & _ & _ & _ & counts & Hprinted & _).
  cbv zeta in *.
  destruct (handler_loop' _ _) as [[[]|e] w1];
    unfold print in *; cbn [fst snd self printed] in *;
    (split; [exact Hmono|]); rewrite Hprinted.
  - exists (map LineCaptured counts). rewrite <- !app_assoc. reflexivity.
  - exists (map LineCaptured counts ++ [LineConnectionError e]).
    rewrite <- !app_assoc. reflexivity.
Qed.

End Server.

(** Two connections, text among the frames of the first and an unreadable
    frame in the second. *)
Lemma serve_keeps_writer_consistent_witness :
  consistent
    (snd (serve toy_image_open toy_resize toy_dirname toy_makedirs
                [{| remote_address := "A";
                    incoming := [Binary "a"; Text "hi"; Binary "b"] |};
                 {| remote_address := "B";
                    incoming := [Binary "c"; Binary "corrupt"; Binary "d"] |}]%string
                (fresh (init "data/out.mp4" 30 (128, 128))))).
Proof.
  apply serve_keeps_writer_consistent.
  unfold consistent. cbn. repeat split; reflexivity.
Defined.

Lemma unreadable_frame_ends_handler_witness :
  toy_handler {| remote_address := "B";
                 incoming := [Binary "c"; Binary "corrupt"; Binary "d"] |}%string
              (fresh (init "out.mp4" 30 (128, 128))) =
  (Ok tt,
   {| self := {| output_path := "out.mp4"; fps := 30; resolution := (128, 128);
                 writer := Some {| vw_path := "out.mp4"; vw_fourcc := "mp4v";
                                   vw_fps := 30; vw_size := (1, 1) |};
                 frame_count := 1 |};
      effects := [MakeDirs ".";
                  OpenWriter {| vw_path := "out.mp4"; vw_fourcc := "mp4v";
                                vw_fps := 30; vw_size := (1, 1) |};
                  WriteFrame [[(0, 0, 255)]]];
      printed := [LineConnected "B"]
                 ++ [LineConnectionError (GatewayFailure "cannot identify image file");
                     LineDisconnected 1] |}).
Proof.
  apply (unreadable_frame_ends_handler toy_image_open toy_resize toy_dirname
           toy_makedirs
           {| remote_address := "B";
              incoming := [Binary "c"; Binary "corrupt"; Binary "d"] |}%string
           [Binary "c"] [Binary "d"] "corrupt"
           (GatewayFailure "cannot identify image file")
           (fresh (init "out.mp4" 30 (128, 128)))
           {| self := {| output_path := "out.mp4"; fps := 30; resolution := (128, 128);
                         writer := Some {| vw_path := "out.mp4"; vw_fourcc := "mp4v";
                                           vw_fps := 30; vw_size := (1, 1) |};
                         frame_count := 1 |};
              effects := [MakeDirs ".";
                          OpenWriter {| vw_path := "out.mp4"; vw_fourcc := "mp4v";
                                        vw_fps := 30; vw_size := (1, 1) |};
                          WriteFrame [[(0, 0, 255)]]];
              printed := [LineConnected "B"] |});
    reflexivity.
Defined.

Lemma add_frame_failure_changes_nothing_witness :
  let w := fresh (init "out.mp4" 30 (128, 128)) in
  let w' := snd (add_frame toy_image_open toy_resize toy_dirname toy_makedirs
                           "corrupt" w) in
  self w' = self w /\ printed w' = printed w /\
  frames_written (effects w') = frames_written (effects w) /\
  writers_opened (effects w') = writers_opened (effects w).
Proof.
  apply (add_frame_failure_changes_nothing toy_image_open toy_resize toy_dirname
           toy_makedirs "corrupt" (GatewayFailure "cannot identify image file")
           (fresh (init "out.mp4" 30 (128, 128)))).
  reflexivity.
Defined.

Lemma add_frame_opens_video_once_witness :
  let w := fresh (init "out.mp4" 30 (128, 128)) in
  let w' := snd (add_frame toy_image_open toy_resize toy_dirname toy_makedirs "a" w) in
  frame_count (self w') = 0 + 1 /\
  exists frame,
    frames_written (effects w') = [] ++ [frame] /\
    exists v,
      writer (self w') = Some v /\
      vw_path v = "out.mp4"%string /\ vw_fps v = 30 /\
      vw_size v = (snd (shape2 frame), fst (shape2 frame)) /\
      writers_opened (effects w') = [] ++ [v].
Proof.
  apply (add_frame_opens_video_once toy_image_open toy_resize toy_dirname
           toy_makedirs "a" (fresh (init "out.mp4" 30 (128, 128)))).
  reflexivity.
Defined.

(** One frame at [fps = 0]: the writer is released and [main] raises. *)
Example main_zero_fps_raises :
  fst (toy_main "out.mp4" 8765 "localhost" 0 (128, 128)
                [{| remote_address := "A"; incoming := [Binary "a"] |}]%string)
  = Raise ZeroDivisionError.
Proof. reflexivity. Qed.

End CaptureProofs.
